(** * HEIDIC editors (ELECTROSCRIBE / SCRIBE): hot-reload protocols

    A shallow embedding of the parts of [ELECTROSCRIBE/main.py] and
    [SCRIBE/main.py] that carry protocol content:

    - the bounded terminal buffer ([Editor._add_terminal_line]);
    - the shader command builder shared by [compile_shaders_only] and the
      shader step of [hotload_dll];
    - the external tool runner ([Editor._run_step]);
    - the auto-hotload triggers ([Editor.save] and
      [HotReloadHandler.on_modified]);
    - the DLL swap retry loop of [hotload_dll].

    Python [str] values are Rocq strings (one [ascii] per code point, so
    code points below 256), times and delays are rationals, the file
    system is a finite map from paths to contents. *)

From Stdlib Require Import QArith DecimalString.
From stdpp Require Import gmap strings list.

Open Scope string_scope.
Open Scope list_scope.
Open Scope stdpp_scope.

(** ** Python string operations used by the editors *)

Module PyStr.

(** [s.endswith(suffix)]: [s] is [suffix], or its tail ends with it. *)
Fixpoint endswith (s suffix : string) : bool :=
  if String.eqb s suffix then true
  else match s with
       | EmptyString => false
       | String _ s' => endswith s' suffix
       end.

(** [s[:-k]] for a positive constant [k]. *)
Definition drop_last (k : nat) (s : string) : string :=
  String.substring 0 (String.length s - k) s.

(** [str(n)] for an integer. *)
Definition str_of_int (n : Z) : string :=
  NilZero.string_of_int (Z.to_int n).

(** The line boundaries of [str.splitlines] among the code points
    below 256: LF, VT, FF, CR, FS, GS, RS and NEL. *)
Definition is_linebreak (c : Ascii.ascii) : bool :=
  let n := Ascii.nat_of_ascii c in
  (Nat.eqb n 10 || Nat.eqb n 11 || Nat.eqb n 12 || Nat.eqb n 13
   || Nat.eqb n 28 || Nat.eqb n 29 || Nat.eqb n 30 || Nat.eqb n 133)%bool.

Definition is_cr (c : Ascii.ascii) : bool := Nat.eqb (Ascii.nat_of_ascii c) 13.
Definition is_lf (c : Ascii.ascii) : bool := Nat.eqb (Ascii.nat_of_ascii c) 10.

(** [splitlines_from cur s]: [cur] is the line read so far.  A line
    break closes the current line (CR LF counts as one break); the text
    left at the end is a line only when it is not empty. *)
Fixpoint splitlines_from (cur s : string) : list string :=
  match s with
  | EmptyString => if String.eqb cur "" then [] else [cur]
  | String c s' =>
      if is_linebreak c then
        match s' with
        | String c' s'' =>
            if (is_cr c && is_lf c')%bool
            then cur :: splitlines_from "" s''
            else cur :: splitlines_from "" s'
        | EmptyString => [cur]
        end
      else splitlines_from (cur +:+ String c "") s'
  end.

(** [s.splitlines()] *)
Definition splitlines (s : string) : list string := splitlines_from "" s.

(** No character of [s] is a line boundary. *)
Fixpoint one_line (s : string) : bool :=
  match s with
  | EmptyString => true
  | String c s' => (negb (is_linebreak c) && one_line s')%bool
  end.

(** [a or ""] for an optional captured stream. *)
Definition or_empty (o : option string) : string :=
  match o with Some s => s | None => "" end.

(** Truthiness of a string and of an optional string. *)
Definition nonempty (s : string) : bool := negb (String.eqb s "").
Definition truthy (o : option string) : bool := nonempty (or_empty o).

End PyStr.

(** ** The terminal buffer *)

Module Terminal.

Definition TERMINAL_MAX_LINES : nat := 500.

(** The two fields of the editor that [_add_terminal_line] writes. *)
Record terminal := {
  terminal_lines : list string;
  terminal_vscroll : Z
}.

(** [list.pop(0)] on a list that is known not to be empty. *)
Definition pop_front (l : list string) : list string := tail l.

(** [Editor._add_terminal_line]; [line_height] is what
    [self.font.get_linesize()] returns. *)
Definition _add_terminal_line (line_height : Z) (line : string)
    (t : terminal) : terminal :=
  let lines := terminal_lines t ++ [line] in
  let lines :=
    if Nat.ltb TERMINAL_MAX_LINES (length lines) then pop_front lines
    else lines in
  let max_scroll := Z.max 0 (Z.of_nat (length lines) * line_height - 100) in
  {| terminal_lines := lines; terminal_vscroll := max_scroll |}.

(** A full buffer, for a concrete run. *)
Definition full_buffer : terminal :=
  {| terminal_lines := "first" :: replicate 499 "x"; terminal_vscroll := 0 |}.

(** [line.rstrip("\n\r")]: the line without the line feeds and
    carriage returns at its end. *)
Fixpoint rstrip_newlines (s : string) : string :=
  match s with
  | EmptyString => EmptyString
  | String c s' =>
      match rstrip_newlines s' with
      | EmptyString =>
          if (PyStr.is_lf c || PyStr.is_cr c)%bool then EmptyString
          else String c EmptyString
      | rest => String c rest
      end
  end.

(** The body of the loop of [run_with_output] ([run_commands] and
    [run_only]) for one line read from the program's output. *)
Definition show_line (line_height : Z) (line : string) (t : terminal) : terminal :=
  if PyStr.nonempty line then
    let line := rstrip_newlines line in
    if PyStr.nonempty line then _add_terminal_line line_height line t else t
  else t.

(** [for line in proc.stdout: ...] over the lines the program wrote. *)
Definition show_output (line_height : Z) (output : list string)
    (t : terminal) : terminal :=
  fold_left (fun t line => show_line line_height line t) output t.

(** The last [n] elements of a list. *)
Definition keep_last (n : nat) (l : list string) : list string :=
  drop (length l - n) l.

End Terminal.

(** ** Shader compiler invocation *)

Module Shaders.
Import PyStr.

(** Output path of a shader ([compile_shaders_only] and the shader step
    of [hotload_dll] carry the same chain of tests). *)
Definition spv_path_of (shader_path : string) : string :=
  if endswith shader_path ".glsl" then drop_last 5 shader_path +:+ ".spv"
  else if endswith shader_path ".vert" then shader_path +:+ ".spv"
  else if endswith shader_path ".frag" then shader_path +:+ ".spv"
  else if endswith shader_path ".comp" then shader_path +:+ ".spv"
  else shader_path +:+ ".spv".

(** Stage flag, [None] when the code leaves [stage_flag] unset. *)
Definition stage_flag_of (shader_path : string) : option string :=
  if endswith shader_path ".comp" then Some "-fshader-stage=compute"
  else if endswith shader_path ".vert" then Some "-fshader-stage=vertex"
  else if endswith shader_path ".frag" then Some "-fshader-stage=fragment"
  else if endswith shader_path ".geom" then Some "-fshader-stage=geometry"
  else None.

(** The argument list handed to [_run_step]. *)
Definition compile_cmd (glslc_path shader_path : string) : list string :=
  let cmd := [glslc_path] in
  let cmd := match stage_flag_of shader_path with
             | Some flag => cmd ++ [flag]
             | None => cmd
             end in
  cmd ++ [shader_path; "-o"; spv_path_of shader_path].

(** Extensions collected by [find_shaders_in_project]. *)
Definition shader_extensions : list string :=
  [".vert"; ".frag"; ".glsl"; ".comp"; ".geom"; ".tesc"; ".tese"].

Definition is_shader_file (file : string) : bool :=
  existsb (endswith file) shader_extensions.

(** The claim as the specification words it: whatever the handled
    extension, a stage flag is passed and the output path is the input
    path with [".spv"] appended. *)
Definition flag_and_suffix_for_all : Prop :=
  forall ext, In ext shader_extensions ->
  forall glslc_path stem,
    let shader_path := stem +:+ ext in
    exists flag,
      compile_cmd glslc_path shader_path
      = [glslc_path; flag; shader_path; "-o"; shader_path +:+ ".spv"].

End Shaders.

(** ** Running an external tool *)

Module RunStep.
Import PyStr.

(** What [subprocess.run] can do: the process ran and exited with a
    return code (the captured streams are [None] when nothing was
    captured), the executable was not found, or another exception was
    raised, which [_run_step] does not catch. *)
Inductive run_outcome :=
| Exited (returncode : Z) (stdout stderr : option string)
| FileNotFound
| OtherError.

(** The two editor fields written by [_run_step]. *)
Record report := {
  status : string;
  log_lines : list string
}.

(** Result of a Python call: a returned value or an escaped exception. *)
Inductive py_result (A : Type) :=
| Returned (a : A)
| Raised.
Arguments Returned {A} a.
Arguments Raised {A}.

(** [list.extend] and [list.append] on [log_lines]. *)
Definition extend_log (ls : list string) (r : report) : report :=
  {| status := status r; log_lines := log_lines r ++ ls |}.
Definition set_status (s : string) (r : report) : report :=
  {| status := s; log_lines := log_lines r |}.

(** [Editor._run_step(label, cmd, capture_output)], given what
    [subprocess.run] did. *)
Definition _run_step (label : string) (cmd : list string)
    (capture_output : bool) (o : run_outcome) (r : report)
    : py_result bool * report :=
  match o with
  | Exited returncode stdout stderr =>
      if negb (Z.eqb returncode 0) then
        let out := or_empty stdout +:+ or_empty stderr in
        let r := set_status (label +:+ " failed: " +:+ str_of_int returncode) r in
        let r := if nonempty out then extend_log (splitlines out) r else r in
        (Returned false, r)
      else if capture_output then
        let r := set_status (label +:+ " ok") r in
        let r := if truthy stdout
                 then extend_log (splitlines (or_empty stdout)) r else r in
        let r := if truthy stderr
                 then extend_log (splitlines (or_empty stderr)) r else r in
        (Returned true, r)
      else
        let r := set_status (label +:+ " launched") r in
        let r := extend_log
                   [label +:+ ": launched " +:+ String.concat " " cmd] r in
        (Returned true, r)
  | FileNotFound =>
      let r := set_status (label +:+ " failed: cmd not found") r in
      let r := extend_log [label +:+ ": command not found"] r in
      (Returned false, r)
  | OtherError => (Raised, r)
  end.

End RunStep.

(** ** Auto-hotload triggers *)

Module Trigger.
Import PyStr.

(** [a > b] on times. *)
Definition Qgtb (a b : Q) : bool := negb (Qle_bool a b).

(** [needle in haystack] *)
Fixpoint contains (needle haystack : string) : bool :=
  if String.prefix needle haystack then true
  else match haystack with
       | EmptyString => false
       | String _ h => contains needle h
       end.

Definition newline : string := String (Ascii.ascii_of_nat 10) "".

(** The editor fields read or written by [save] and [on_modified]. *)
Record editor := {
  view_mode : string;
  current_shader_path : option string;
  viewing_hd : bool;
  path : string;
  original_hd_path : string;
  lines : list string;
  status : string;
  auto_hotload_enabled : bool;
  last_hotload_time : Q;
  _building : bool;
  _just_built : bool
}.

Definition set_status (s : string) (e : editor) : editor :=
  {| view_mode := view_mode e; current_shader_path := current_shader_path e;
     viewing_hd := viewing_hd e; path := path e;
     original_hd_path := original_hd_path e; lines := lines e;
     status := s; auto_hotload_enabled := auto_hotload_enabled e;
     last_hotload_time := last_hotload_time e;
     _building := _building e; _just_built := _just_built e |}.

Definition set_last_hotload_time (t : Q) (e : editor) : editor :=
  {| view_mode := view_mode e; current_shader_path := current_shader_path e;
     viewing_hd := viewing_hd e; path := path e;
     original_hd_path := original_hd_path e; lines := lines e;
     status := status e; auto_hotload_enabled := auto_hotload_enabled e;
     last_hotload_time := t;
     _building := _building e; _just_built := _just_built e |}.

(** The watcher's handler object. *)
Record handler := { last_modified : Q }.

(** A file-system notification. *)
Record fs_event := {
  is_directory : bool;
  src_path : string
}.

(** [Editor.has_hot_systems]: the project file is read from [files];
    a failed read gives [False]. *)
Definition has_hot_systems (files : gmap string string) (e : editor) : bool :=
  if (negb (nonempty (original_hd_path e))
      || negb (endswith (original_hd_path e) ".hd"))%bool
  then false
  else match files !! original_hd_path e with
       | Some content => contains "@hot" content
       | None => false
       end.

(** The file [Editor.save] writes to (ELECTROSCRIBE; SCRIBE has no
    ["hr"] view and so lacks the third test). *)
Definition save_path_of (e : editor) : string :=
  if (String.eqb (view_mode e) "shader" && truthy (current_shader_path e))%bool
  then or_empty (current_shader_path e)
  else if (String.eqb (view_mode e) "cpp" && negb (viewing_hd e))%bool
  then path e
  else if String.eqb (view_mode e) "hr" then path e
  else original_hd_path e.

Section WithOs.
(** [os.path.abspath] and [os.path.basename]. *)
Variable abspath : string -> string.
Variable basename : string -> string.

(** [Editor.save] at time [now].  [write_ok] is false when creating
    the directory or writing the file raises: the exception leaves
    [save] before anything else happens ([None]).  The returned
    boolean tells whether the [delayed_hotload] thread was started. *)
Definition save (now : Q) (write_ok : bool) (files : gmap string string)
    (e : editor) : option (gmap string string * editor * bool) :=
  let save_path := save_path_of e in
  if negb write_ok then None
  else
    let files := <[save_path := String.concat newline (lines e)]> files in
    let e := set_status ("Saved " +:+ basename save_path) e in
    if (String.eqb (view_mode e) "hd" && auto_hotload_enabled e
        && has_hot_systems files e
        && negb (_building e) && negb (_just_built e))%bool
    then
      let current_time := now in
      if Qgtb (current_time - last_hotload_time e) 2 then
        let e := set_last_hotload_time current_time e in
        let e := set_status
                   ("Saved " +:+ save_path +:+ " - Auto hotloading...") e in
        Some (files, e, true)
      else Some (files, e, false)
    else Some (files, e, false).

(** [HotReloadHandler.on_modified(event)] at time [now]; the returned
    boolean tells whether the [delayed_hotload] thread was started. *)
Definition on_modified (event : fs_event) (now : Q)
    (files : gmap string string) (h : handler) (e : editor)
    : handler * editor * bool :=
  if is_directory event then (h, e, false)
  else if (endswith (src_path event) ".dll"
           || endswith (src_path event) ".dll.new")%bool
  then (h, e, false)
  else if (endswith (src_path event) ".hd"
           && String.eqb (abspath (src_path event))
                         (abspath (original_hd_path e)))%bool
  then
    if (_building e || _just_built e)%bool then (h, e, false)
    else
      let current_time := now in
      if Qgtb (current_time - last_modified h) 1 then
        let h := {| last_modified := current_time |} in
        if Qgtb (current_time - last_hotload_time e) 2 then
          if (auto_hotload_enabled e && has_hot_systems files e)%bool
          then (h, set_last_hotload_time current_time e, true)
          else (h, e, false)
        else (h, e, false)
      else (h, e, false)
  else (h, e, false).

(** What can happen to a running editor, as far as the triggers are
    concerned: the user saves, the watcher delivers a notification,
    or another program writes a file. *)
Inductive action :=
| DoSave (now : Q) (write_ok : bool)
| Notify (event : fs_event) (now : Q)
| ExternalWrite (file content : string).

Definition action_time (a : action) : option Q :=
  match a with
  | DoSave now _ => Some now
  | Notify _ now => Some now
  | ExternalWrite _ _ => None
  end.

Record session := {
  files : gmap string string;
  watcher : handler;
  ed : editor;
  hotloads_started : nat
}.

Definition count_trigger (fired : bool) (n : nat) : nat :=
  if fired then S n else n.

Definition step (a : action) (s : session) : session :=
  match a with
  | DoSave now write_ok =>
      match save now write_ok (files s) (ed s) with
      | Some (fs', e', fired) =>
          {| files := fs'; watcher := watcher s; ed := e';
             hotloads_started := count_trigger fired (hotloads_started s) |}
      | None => s
      end
  | Notify event now =>
      let '(h', e', fired) := on_modified event now (files s) (watcher s) (ed s) in
      {| files := files s; watcher := h'; ed := e';
         hotloads_started := count_trigger fired (hotloads_started s) |}
  | ExternalWrite file content =>
      {| files := <[file := content]> (files s); watcher := watcher s;
         ed := ed s; hotloads_started := hotloads_started s |}
  end.

Fixpoint run (actions : list action) (s : session) : session :=
  match actions with
  | [] => s
  | a :: rest => run rest (step a s)
  end.

(** A notification is for the watched project file and passes the
    path tests of [on_modified]. *)
Definition is_watched (event : fs_event) (e : editor) : bool :=
  (negb (is_directory event)
   && negb (endswith (src_path event) ".dll"
            || endswith (src_path event) ".dll.new")
   && endswith (src_path event) ".hd"
   && String.eqb (abspath (src_path event)) (abspath (original_hd_path e)))%bool.

End WithOs.

(** The build flags, as both triggers test them. *)
Definition build_flags_set (e : editor) : bool :=
  (_building e || _just_built e)%bool.

(** An action arrives within the minimum inter-trigger interval of the
    last hotload. *)
Definition within_interval (last : Q) (a : action) : Prop :=
  match action_time a with
  | Some t => (t - last <= 2)%Q
  | None => True
  end.

(** A concrete project: [proj/game.hd] holds a [@hot] system, the editor
    shows it, and paths are already absolute. *)
Definition demo_editor (building : bool) : editor :=
  {| view_mode := "hd"; current_shader_path := None;
     viewing_hd := true; path := "proj/game.hd";
     original_hd_path := "proj/game.hd";
     lines := ["@hot system spin {}"]; status := "";
     auto_hotload_enabled := true; last_hotload_time := 0;
     _building := building; _just_built := false |}.

Definition demo_session (building : bool) : session :=
  {| files := {[ "proj/game.hd" := "@hot system spin {}" ]};
     watcher := {| last_modified := 0 |};
     ed := demo_editor building;
     hotloads_started := 0 |}.

Definition demo_event : fs_event :=
  {| is_directory := false; src_path := "proj/game.hd" |}.

(** The clock readings at which the actions of a run started the
    hotload thread, in order. *)
Fixpoint trigger_times (abspath basename : string -> string)
    (actions : list action) (s : session) : list Q :=
  match actions with
  | [] => []
  | a :: rest =>
      let s' := step abspath basename a s in
      let here :=
        match action_time a with
        | Some t => if Nat.ltb (hotloads_started s) (hotloads_started s')
                    then [t] else []
        | None => []
        end in
      here ++ trigger_times abspath basename rest s'
  end.

(** Each time of the list is more than 2.0 seconds after the one
    before it. *)
Fixpoint spaced (times : list Q) : Prop :=
  match times with
  | t :: (t' :: _) as rest => (2 < t' - t)%Q /\ spaced rest
  | _ => True
  end.

End Trigger.

(** ** The DLL swap retry loop of [hotload_dll] *)

Module Swap.

Definition max_retries : nat := 15.

(** The calls that change the file system. *)
Inductive os_op :=
| Remove (file : string)
| Rename (src dst : string).

(** One such call: whether it succeeded, and the files before and
    after it (equal when it raised). *)
Record os_step := {
  op : os_op;
  ok : bool;
  pre : gmap string string;
  post : gmap string string
}.

(** The [time.sleep] call sites of the loop.  The handler of
    [except (PermissionError, OSError)] around the first rename sleeps
    at [LockedBackoff], the handler of [except Exception] around the
    second rename at [RenameBackoff]. *)
Inductive sleep_site :=
| AfterRetire        (* [time.sleep(0.1)] after the old DLL was moved away *)
| LockedBackoff      (* [time.sleep(wait_time)], old DLL still locked *)
| RenameBackoff      (* [time.sleep(wait_time)], new DLL could not be renamed *)
| UnexpectedBackoff. (* [time.sleep(1)] of the outermost handler *)

Inductive event :=
| EvAttempt (attempt : nat)
| EvOs (s : os_step)
| EvSleep (site : sleep_site) (attempt : nat) (seconds : Q).

(** The lines appended to [log_lines], by call site. *)
Inductive log_entry :=
| LogLockedWaiting (wait_time : Q) (attempt : nat)
| LogStillLocked
| LogMakeSureGameRuns
| LogRebuilt
| LogRenameRetry (wait_time : Q)
| LogRenameFailed
| LogNewDllNotFound (dll_new_path : string)
| LogUnexpectedRetry
| LogFailedToReplace
| LogCouldNotReplace.

(** The state the loop works on: the files, the number of file-system
    calls made so far (it indexes the environment's answers), the
    events so far in the order they happened, and the variables
    [log_lines], [replaced] and [any_replaced]. *)
Record world := {
  files : gmap string string;
  os_calls : nat;
  trace : list event;
  log_lines : list log_entry;
  replaced : bool;
  any_replaced : bool
}.

Definition with_files (fs : gmap string string) (w : world) : world :=
  {| files := fs; os_calls := os_calls w; trace := trace w;
     log_lines := log_lines w; replaced := replaced w;
     any_replaced := any_replaced w |}.

Definition count_call (w : world) : world :=
  {| files := files w; os_calls := S (os_calls w); trace := trace w;
     log_lines := log_lines w; replaced := replaced w;
     any_replaced := any_replaced w |}.

Definition record_event (e : event) (w : world) : world :=
  {| files := files w; os_calls := os_calls w; trace := trace w ++ [e];
     log_lines := log_lines w; replaced := replaced w;
     any_replaced := any_replaced w |}.

Definition append_log (l : log_entry) (w : world) : world :=
  {| files := files w; os_calls := os_calls w; trace := trace w;
     log_lines := log_lines w ++ [l]; replaced := replaced w;
     any_replaced := any_replaced w |}.

Definition assign_replaced (b : bool) (w : world) : world :=
  {| files := files w; os_calls := os_calls w; trace := trace w;
     log_lines := log_lines w; replaced := b;
     any_replaced := any_replaced w |}.

Definition assign_any_replaced (b : bool) (w : world) : world :=
  {| files := files w; os_calls := os_calls w; trace := trace w;
     log_lines := log_lines w; replaced := replaced w;
     any_replaced := b |}.

(** *** A state monad with [OSError] *)

Inductive outcome (A : Type) :=
| Done (a : A)
| OSError.
Arguments Done {A} a.
Arguments OSError {A}.

Definition M (A : Type) : Type := world -> outcome A * world.

Definition ret {A} (a : A) : M A := fun w => (Done a, w).

Definition bind {A B} (m : M A) (k : A -> M B) : M B :=
  fun w => match m w with
           | (Done a, w') => k a w'
           | (OSError, w') => (OSError, w')
           end.

(** [try: body except ...: handler] *)
Definition try_except {A} (body handler : M A) : M A :=
  fun w => match body w with
           | (Done a, w') => (Done a, w')
           | (OSError, w') => handler w'
           end.

Definition modify (f : world -> world) : M unit := fun w => (Done tt, f w).

Declare Scope swap_scope.
Delimit Scope swap_scope with swap.
Notation "x <- m ;; k" := (bind m (fun x => k))
  (at level 100, m at next level, right associativity) : swap_scope.
Notation "m ;; k" := (bind m (fun _ => k))
  (at level 100, right associativity) : swap_scope.

(** How control leaves one pass through the loop body. *)
Inductive flow :=
| Continue   (* [continue], or the end of the body *)
| Break.

Section Loop.
Local Open Scope swap_scope.

(** The environment: [denied n] tells whether the [n]-th file-system
    call raises [OSError] (a lock held by the game, a permission
    error, a full disk, ...).  The loop is the only writer of the three
    paths: the game takes part by refusing calls, not by changing files.
    A call that is let through is atomic.  [os.rename] onto an existing
    file replaces it on POSIX and raises on Windows; the loop never
    renames onto an existing file ([step_overwrites_nothing] below), so
    both behave alike here. *)
Variable denied : nat -> bool.

(** [dll_path], and the two paths derived from it:
    [os.path.join(project_dir, f"{dll_name}.new")] and
    [os.path.join(project_dir, f"{dll_name}.old")]. *)
Variable dll_path : string.
Definition dll_new_path : string := dll_path +:+ ".new".
Definition dll_old_path : string := dll_path +:+ ".old".

(** [os.path.exists] *)
Definition os_path_exists (file : string) : M bool :=
  fun w => (Done (match files w !! file with Some _ => true | None => false end), w).

(** What a call does to the files when the environment lets it
    through; [None] when the call raises of its own (no such file). *)
Definition apply_op (o : os_op) (fs : gmap string string)
    : option (gmap string string) :=
  match o with
  | Remove file =>
      match fs !! file with
      | Some _ => Some (delete file fs)
      | None => None
      end
  | Rename src dst =>
      match fs !! src with
      | Some content => Some (<[dst := content]> (delete src fs))
      | None => None
      end
  end.

Definition os_call (o : os_op) : M unit :=
  fun w =>
    let fs := files w in
    let result := if denied (os_calls w) then None else apply_op o fs in
    match result with
    | Some fs' =>
        (Done tt,
         record_event (EvOs {| op := o; ok := true; pre := fs; post := fs' |})
           (with_files fs' (count_call w)))
    | None =>
        (OSError,
         record_event (EvOs {| op := o; ok := false; pre := fs; post := fs |})
           (count_call w))
    end.

Definition os_remove (file : string) : M unit := os_call (Remove file).
Definition os_rename (src dst : string) : M unit := os_call (Rename src dst).

Definition time_sleep (site : sleep_site) (attempt : nat) (seconds : Q) : M unit :=
  modify (record_event (EvSleep site attempt seconds)).

Definition log (l : log_entry) : M unit := modify (append_log l).

(** [1.0 + (attempt * 0.2)] *)
Definition locked_wait_time (attempt : nat) : Q :=
  1 + inject_Z (Z.of_nat attempt) * 0.2.

(** First half of the body: move the loaded DLL to the backup path.
    [None] means that control falls through to the second half. *)
Definition retire_loaded (attempt : nat) : M (option flow) :=
  loaded <- os_path_exists dll_path ;;
  if loaded then
    try_except
      (has_old <- os_path_exists dll_old_path ;;
       (if has_old then os_remove dll_old_path else ret tt) ;;
       os_rename dll_path dll_old_path ;;
       time_sleep AfterRetire attempt 0.1 ;;
       ret None)
      (if Nat.ltb attempt (max_retries - 1) then
         let wait_time := locked_wait_time attempt in
         log (LogLockedWaiting wait_time attempt) ;;
         time_sleep LockedBackoff attempt wait_time ;;
         ret (Some Continue)
       else
         log LogStillLocked ;;
         log LogMakeSureGameRuns ;;
         ret (Some Break))
  else ret None.

(** Second half of the body: move the new DLL to the loaded path. *)
Definition promote_staged (attempt : nat) : M flow :=
  staged <- os_path_exists dll_new_path ;;
  if staged then
    try_except
      (os_rename dll_new_path dll_path ;;
       still_staged <- os_path_exists dll_new_path ;;
       loaded <- os_path_exists dll_path ;;
       if (negb still_staged && loaded)%bool then
         modify (assign_replaced true) ;;
         modify (assign_any_replaced true) ;;
         log LogRebuilt ;;
         has_old <- os_path_exists dll_old_path ;;
         (if has_old then try_except (os_remove dll_old_path) (ret tt)
          else ret tt) ;;
         ret Break
       else ret Continue)
      (if Nat.ltb attempt (max_retries - 1) then
         let wait_time := 1%Q in
         log (LogRenameRetry wait_time) ;;
         time_sleep RenameBackoff attempt wait_time ;;
         ret Continue
       else
         log LogRenameFailed ;;
         ret Break)
  else
    log (LogNewDllNotFound dll_new_path) ;;
    ret Break.

(** The body of [for attempt in range(max_retries)]. *)
Definition attempt_body (attempt : nat) : M flow :=
  modify (record_event (EvAttempt attempt)) ;;
  try_except
    (r <- retire_loaded attempt ;;
     match r with
     | Some f => ret f
     | None => promote_staged attempt
     end)
    (if Nat.ltb attempt (max_retries - 1) then
       time_sleep UnexpectedBackoff attempt 1 ;;
       log LogUnexpectedRetry ;;
       ret Continue
     else
       log LogFailedToReplace ;;
       ret Continue).

Fixpoint retry_loop (attempts : list nat) : M unit :=
  match attempts with
  | [] => ret tt
  | attempt :: rest =>
      f <- attempt_body attempt ;;
      match f with
      | Break => ret tt
      | Continue => retry_loop rest
      end
  end.

(** The replacement of one DLL, from [replaced = False] to the
    ["ERROR: Could not replace"] line. *)
Definition replace_dll : M unit :=
  modify (assign_replaced false) ;;
  retry_loop (seq 0 max_retries) ;;
  fun w => if negb (replaced w) then log LogCouldNotReplace w
           else ret tt w.

(** The world in which the replacement of a DLL starts. *)
Definition start (fs : gmap string string) : world :=
  {| files := fs; os_calls := 0; trace := []; log_lines := [];
     replaced := false; any_replaced := false |}.

Definition swap (fs : gmap string string) : world :=
  snd (replace_dll (start fs)).

End Loop.

(** *** Reading a trace *)

#[global] Instance os_op_eq_dec : EqDecision os_op.
Proof. solve_decision. Defined.

(** The event is a successful call [o]. *)
Definition succeeded (o : os_op) (e : event) : bool :=
  match e with
  | EvOs s => (ok s && bool_decide (op s = o))%bool
  | _ => false
  end.

(** Some call [o] of the trace succeeded. *)
Definition happened (o : os_op) (t : list event) : bool :=
  existsb (succeeded o) t.

(** A call that finds [content] at the loaded path leaves it there or
    leaves it at the backup path. *)
Definition step_keeps_module (loaded backup : string) (e : event) : Prop :=
  match e with
  | EvOs s =>
      forall content, pre s !! loaded = Some content ->
        post s !! loaded = Some content \/ post s !! backup = Some content
  | _ => True
  end.

(** A successful rename found nothing at its destination. *)
Definition step_overwrites_nothing (e : event) : Prop :=
  match e with
  | EvOs s =>
      match op s with
      | Rename _ dst => ok s = true -> pre s !! dst = None
      | Remove _ => True
      end
  | _ => True
  end.

(** After the call, [file] holds [content]. *)
Definition step_leaves (file : string) (content : option string) (e : event)
    : Prop :=
  match e with
  | EvOs s => post s !! file = content
  | _ => True
  end.

(** The sleeps that separate two passes of the loop. *)
Definition is_backoff (site : sleep_site) : bool :=
  match site with
  | AfterRetire => false
  | LockedBackoff | RenameBackoff | UnexpectedBackoff => true
  end.

Definition paces (e : event) : bool :=
  match e with
  | EvAttempt _ => true
  | EvSleep site _ _ => is_backoff site
  | EvOs _ => false
  end.

(** The attempts of a trace and the sleeps between them. *)
Definition schedule (t : list event) : list event := List.filter paces t.

Definition attempts (t : list event) : list nat :=
  flat_map (fun e => match e with EvAttempt a => [a] | _ => [] end) t.




(** The calls of a trace, replayed from [fs], are the calls the file
    system made: a successful call changes the files as [apply_op] says,
    a failed one leaves them alone, and each call starts where the one
    before it ended. *)
Inductive replays : gmap string string -> list event -> gmap string string -> Prop :=
| replays_nil fs : replays fs [] fs
| replays_ok fs o fs' t fs'' :
    apply_op o fs = Some fs' -> replays fs' t fs'' ->
    replays fs (EvOs {| op := o; ok := true; pre := fs; post := fs' |} :: t) fs''
| replays_failed fs o t fs'' :
    replays fs t fs'' ->
    replays fs (EvOs {| op := o; ok := false; pre := fs; post := fs |} :: t) fs''
| replays_attempt fs a t fs'' :
    replays fs t fs'' -> replays fs (EvAttempt a :: t) fs''
| replays_sleep fs site a d t fs'' :
    replays fs t fs'' -> replays fs (EvSleep site a d :: t) fs''.

Section Phases.
Variable dll_path : string.

(** The two renames of the protocol. *)
Definition retire : os_op := Rename dll_path (dll_old_path dll_path).
Definition promote : os_op := Rename (dll_new_path dll_path) dll_path.

(** Where a swap that started from the files [fs0] stands. *)
Inductive phase (fs0 : gmap string string) (w : world) : Prop :=
| Untouched :
    files w !! dll_path = fs0 !! dll_path ->
    files w !! dll_new_path dll_path = fs0 !! dll_new_path dll_path ->
    replaced w = false ->
    happened retire (trace w) = false ->
    happened promote (trace w) = false ->
    phase fs0 w
| Retired (old_content : string) :
    fs0 !! dll_path = Some old_content ->
    files w !! dll_path = None ->
    files w !! dll_old_path dll_path = Some old_content ->
    files w !! dll_new_path dll_path = fs0 !! dll_new_path dll_path ->
    replaced w = false ->
    happened retire (trace w) = true ->
    happened promote (trace w) = false ->
    phase fs0 w
| Committed (new_content : string) :
    fs0 !! dll_new_path dll_path = Some new_content ->
    files w !! dll_new_path dll_path = None ->
    files w !! dll_path = Some new_content ->
    replaced w = true ->
    happened promote (trace w) = true ->
    (is_Some (fs0 !! dll_path) -> happened retire (trace w) = true) ->
    phase fs0 w.

(** As long as the loaded DLL was not moved away, it is where it was
    and no call has changed it. *)
Definition untouched_so_far (content : string) (w : world) : Prop :=
  happened retire (trace w) = false ->
  files w !! dll_path = Some content
  /\ Forall (step_leaves dll_path (Some content)) (trace w).

End Phases.

(** *** Concrete runs *)

(** A project directory with the loaded DLL, an older backup and the
    freshly compiled DLL. *)
Definition demo_files : gmap string string :=
  {[ "proj/spin.dll" := "v1"; "proj/spin.dll.old" := "v0";
     "proj/spin.dll.new" := "v2" ]}.

(** The freshly compiled DLL only (first build). *)
Definition fresh_files : gmap string string :=
  {[ "proj/spin.dll.new" := "v2" ]}.

(** The game holds the DLL for good: every call is refused. *)
Definition always_locked (n : nat) : bool := true.

(** The first [k] calls are refused, the later ones go through. *)
Definition locked_first (k : nat) (n : nat) : bool := Nat.ltb n k.

(** Only the first [k] calls go through. *)
Definition locked_after (k : nat) (n : nat) : bool := negb (Nat.ltb n k).

(** *** Sleeping time *)

(** The seconds slept between attempts. *)
Fixpoint backoff_total (t : list event) : Q :=
  match t with
  | [] => 0%Q
  | EvSleep site _ seconds :: t' =>
      if is_backoff site then (seconds + backoff_total t')%Q else backoff_total t'
  | _ :: t' => backoff_total t'
  end.


(** The environment refuses nothing. *)
Definition never_locked (n : nat) : bool := false.

End Swap.

(** ** The text buffer *)

Module Buffer.
Import PyStr.

(** The first [n] characters of a text, and the text without them. *)
Fixpoint str_take (n : nat) (s : string) : string :=
  match n, s with
  | S n', String c s' => String c (str_take n' s')
  | _, _ => EmptyString
  end.

Fixpoint str_drop (n : nat) (s : string) : string :=
  match n, s with
  | S n', String _ s' => str_drop n' s'
  | _, _ => s
  end.

(** The position in a sequence of length [len] that the index [i]
    names: a negative index counts from the end, and an index outside
    the sequence raises [IndexError] ([None]). *)
Definition index_of (len : nat) (i : Z) : option nat :=
  if (0 <=? i)%Z then
    if (i <? Z.of_nat len)%Z then Some (Z.to_nat i) else None
  else
    if (- Z.of_nat len <=? i)%Z then Some (Z.to_nat (Z.of_nat len + i)) else None.

(** The position a slice bound [i] names: negative bounds count from
    the end, and bounds outside the sequence are clamped. *)
Definition slice_bound (len : nat) (i : Z) : nat :=
  if (i <? 0)%Z then Z.to_nat (Z.max 0 (Z.of_nat len + i))
  else Z.to_nat (Z.min i (Z.of_nat len)).

(** [s[:i]] and [s[i:]] *)
Definition str_to (i : Z) (s : string) : string :=
  str_take (slice_bound (String.length s) i) s.
Definition str_from (i : Z) (s : string) : string :=
  str_drop (slice_bound (String.length s) i) s.

(** [l[i]], [l[i] = v], [del l[i]] and [l.insert(i, v)] *)
Definition py_get (l : list string) (i : Z) : option string :=
  n ← index_of (length l) i; l !! n.
Definition py_set (l : list string) (i : Z) (v : string) : option (list string) :=
  n ← index_of (length l) i; Some (<[n := v]> l).
Definition py_del (l : list string) (i : Z) : option (list string) :=
  n ← index_of (length l) i; Some (delete n l).
Definition py_insert (l : list string) (i : Z) (v : string) : list string :=
  let n := slice_bound (length l) i in take n l ++ v :: drop n l.

(** [len(s)] *)
Definition len (s : string) : Z := Z.of_nat (String.length s).

(** The editor fields the editing keys work on. *)
Record buffer := {
  lines : list string;
  cursor_x : Z;
  cursor_y : Z
}.

(** A call returns, or raises [IndexError] in the state it has reached. *)
Inductive result :=
| Ok (b : buffer)
| IndexError (b : buffer).

(** [Editor._insert(text)] *)
Definition _insert (text : string) (b : buffer) : result :=
  match py_get (lines b) (cursor_y b) with
  | None => IndexError b
  | Some line =>
      match py_set (lines b) (cursor_y b)
              (str_to (cursor_x b) line +:+ text +:+ str_from (cursor_x b) line) with
      | None => IndexError b
      | Some lines' =>
          Ok {| lines := lines'; cursor_x := cursor_x b + len text;
                cursor_y := cursor_y b |}
      end
  end.

(** [Editor._backspace()] *)
Definition _backspace (b : buffer) : result :=
  if (0 <? cursor_x b)%Z then
    match py_get (lines b) (cursor_y b) with
    | None => IndexError b
    | Some line =>
        match py_set (lines b) (cursor_y b)
                (str_to (cursor_x b - 1) line +:+ str_from (cursor_x b) line) with
        | None => IndexError b
        | Some lines' =>
            Ok {| lines := lines'; cursor_x := cursor_x b - 1;
                  cursor_y := cursor_y b |}
        end
    end
  else if (0 <? cursor_y b)%Z then
    match py_get (lines b) (cursor_y b - 1) with
    | None => IndexError b
    | Some prev =>
        match py_get (lines b) (cursor_y b) with
        | None => IndexError b
        | Some cur =>
            let new_x := len prev in
            match py_set (lines b) (cursor_y b - 1) (prev +:+ cur) with
            | None => IndexError b
            | Some lines1 =>
                match py_del lines1 (cursor_y b) with
                | None =>
                    IndexError {| lines := lines1; cursor_x := cursor_x b;
                                  cursor_y := cursor_y b |}
                | Some lines2 =>
                    Ok {| lines := lines2; cursor_x := new_x;
                          cursor_y := cursor_y b - 1 |}
                end
            end
        end
    end
  else Ok b.

(** [Editor._newline()] *)
Definition _newline (b : buffer) : result :=
  match py_get (lines b) (cursor_y b) with
  | None => IndexError b
  | Some line =>
      match py_set (lines b) (cursor_y b) (str_to (cursor_x b) line) with
      | None => IndexError b
      | Some lines1 =>
          Ok {| lines := py_insert lines1 (cursor_y b + 1)
                           (str_from (cursor_x b) line);
                cursor_x := 0;
                cursor_y := cursor_y b + 1 |}
      end
  end.

(** [Editor.move_cursor(dx, dy)]: the row is assigned before the line
    is read. *)
Definition move_cursor (dx dy : Z) (b : buffer) : result :=
  let y := Z.max 0 (Z.min (Z.of_nat (length (lines b)) - 1) (cursor_y b + dy)) in
  let b1 := {| lines := lines b; cursor_x := cursor_x b; cursor_y := y |} in
  match py_get (lines b1) y with
  | None => IndexError b1
  | Some line =>
      Ok {| lines := lines b1;
            cursor_x := Z.max 0 (Z.min (len line) (cursor_x b1 + dx));
            cursor_y := y |}
  end.

(** [Editor._load_file(path)]: the lines of the file, or one empty line
    when there is no such file. *)
Definition _load_file (files : gmap string string) (path : string) : list string :=
  match files !! path with
  | Some content => splitlines content
  | None => [""]
  end.

(** The text [Editor.save] writes for a list of lines. *)
Definition saved_text (ls : list string) : string :=
  String.concat Trigger.newline ls.

(** The lines [str.splitlines] finds in a saved text: the lines that
    were saved, less an empty last one. *)
Fixpoint loaded_back (ls : list string) : list string :=
  match ls with
  | [] => []
  | [l] => if String.eqb l "" then [] else [l]
  | l :: ls' => l :: loaded_back ls'
  end.

(** The cursor is in the text: on a line of the buffer, and on that line
    between its first character and its end. *)
Definition cursor_in_text (b : buffer) : Prop :=
  exists line,
    (0 <= cursor_y b)%Z
    /\ lines b !! Z.to_nat (cursor_y b) = Some line
    /\ (0 <= cursor_x b <= len line)%Z.

(** The line the cursor is on, the saved text up to the cursor, and the
    saved text from the cursor on. *)
Definition cursor_line (b : buffer) : string :=
  default "" (lines b !! Z.to_nat (cursor_y b)).
Definition text_before (b : buffer) : string :=
  saved_text (take (Z.to_nat (cursor_y b)) (lines b)
              ++ [str_to (cursor_x b) (cursor_line b)]).
Definition text_after (b : buffer) : string :=
  saved_text (str_from (cursor_x b) (cursor_line b)
              :: drop (S (Z.to_nat (cursor_y b))) (lines b)).

(** A run of calls stops at the first that raises. *)
Definition and_then (r : result) (f : buffer -> result) : result :=
  match r with
  | Ok b => f b
  | IndexError b => IndexError b
  end.

(** [n] presses of the backspace key. *)
Fixpoint backspaces (n : nat) (b : buffer) : result :=
  match n with
  | 0 => Ok b
  | S n' => and_then (_backspace b) (backspaces n')
  end.

End Buffer.

(** ** Opening a file *)

Module Editor.
Import PyStr.

(** [s.replace(old, new)]: the occurrences of [old] are replaced from
    the left, and the search goes on behind each of them; [skip] counts
    the characters of an occurrence that are still to be passed.  An
    empty [old] is found before every character and at the end. *)
Fixpoint replace_from (skip : nat) (old new s : string) : string :=
  match s with
  | EmptyString => if String.eqb old "" then new else ""
  | String c s' =>
      match skip with
      | S k => replace_from k old new s'
      | 0 =>
          if String.eqb old ""
          then new +:+ String c (replace_from 0 old new s')
          else if String.prefix old s
          then new +:+ replace_from (String.length old - 1) old new s'
          else String c (replace_from 0 old new s')
      end
  end.

Definition str_replace (old new s : string) : string := replace_from 0 old new s.

(** [c in s] for a character. *)
Fixpoint occurs (c : Ascii.ascii) (s : string) : bool :=
  match s with
  | EmptyString => false
  | String c' s' => (Ascii.eqb c c' || occurs c s')%bool
  end.

(** The path [cpp_file_exists], [toggle_view], [run_commands] and
    [hotload_dll] take for the C++ file of a project source. *)
Definition cpp_path_of (hd_path : string) : string :=
  str_replace ".hd" ".cpp" hd_path.

(** [os.path.exists] *)
Definition exists_ (files : gmap string string) (path : string) : bool :=
  bool_decide (is_Some (files !! path)).

(** [Editor.cpp_file_exists()] *)
Definition cpp_file_exists (files : gmap string string) (e : Trigger.editor)
    : bool :=
  if negb (endswith (Trigger.original_hd_path e) ".hd") then false
  else exists_ files (cpp_path_of (Trigger.original_hd_path e)).

(** [Editor.__init__(path)], as far as the fields of [Trigger.editor]
    go: the later assignments to [view_mode], [viewing_hd] and
    [original_hd_path] are made in the order of the source. *)
Definition __init__ (files : gmap string string) (path : string)
    : Trigger.editor :=
  let original_hd_path := if endswith path ".hd" then path else path in
  let lines := Buffer._load_file files path in
  let status := "Loaded " +:+ path in
  let view_mode := "hd" in
  let viewing_hd := true in
  let current_shader_path : option string := None in
  let '(view_mode, original_hd_path) :=
    if nonempty path then
      if endswith path ".heiroc"
      then ("hr", str_replace ".heiroc" ".hd" path)
      else if endswith path ".hd" then ("hd", path)
      else (view_mode, path)
    else (view_mode, path) in
  let '(view_mode, viewing_hd) :=
    if (negb (nonempty path) || negb (endswith path ".hd"))%bool
    then ("hd", true) else (view_mode, viewing_hd) in
  {| Trigger.view_mode := view_mode;
     Trigger.current_shader_path := current_shader_path;
     Trigger.viewing_hd := viewing_hd;
     Trigger.path := path;
     Trigger.original_hd_path := original_hd_path;
     Trigger.lines := lines;
     Trigger.status := status;
     Trigger.auto_hotload_enabled := true;
     Trigger.last_hotload_time := 0;
     Trigger._building := false;
     Trigger._just_built := false |}.

End Editor.

(** ** Syntax colouring *)

Module Syntax.
Import PyStr.

Inductive color :=
| COLOR_KEYWORD
| COLOR_TYPE
| COLOR_NUMBER
| COLOR_STRING
| COLOR_COMMENT
| COLOR_ANNOTATION
| COLOR_PRINT.

(** A piece of the line and its colour, [None] for the default one. *)
Definition token : Type := string * option color.

Definition slash : Ascii.ascii := Ascii.ascii_of_nat 47.
Definition quote : Ascii.ascii := Ascii.ascii_of_nat 34.
Definition backslash : Ascii.ascii := Ascii.ascii_of_nat 92.
Definition at_sign : Ascii.ascii := Ascii.ascii_of_nat 64.
Definition dot : Ascii.ascii := Ascii.ascii_of_nat 46.

(** [self.keywords] and [self.types] *)
Definition keywords : list string :=
  ["fn"; "let"; "if"; "else"; "while"; "for"; "return"; "struct"; "enum";
   "system"; "extern"; "import"; "as"; "break"; "continue"; "true"; "false"].
Definition types : list string :=
  ["i32"; "i64"; "u32"; "u64"; "f32"; "f64"; "bool"; "void"; "String"].

(** [word in words] *)
Definition member (word : string) (words : list string) : bool :=
  existsb (String.eqb word) words.

(** [if current: tokens.append((current, None))] *)
Definition flush (current : string) : list token :=
  if nonempty current then [(current, None)] else [].

(** The inner loop of a string literal, on the text behind the opening
    quote: the number of characters before the closing quote, where a
    backslash takes the next character with it when there is one. *)
Fixpoint literal_len (r : string) : nat :=
  match r with
  | EmptyString => 0
  | String c r' =>
      if Ascii.eqb c quote then 0
      else if Ascii.eqb c backslash then
        match r' with
        | String _ r'' => 2 + literal_len r''
        | EmptyString => 1
        end
      else 1 + literal_len r'
  end.

(** What the first loop leaves: it returns from inside the function at
    a comment, and falls through to the colouring of words otherwise. *)
Inductive scanned :=
| Returned (tokens : list token)
| Scanned (tokens : list token).

Definition tokens_of (r : scanned) : list token :=
  match r with
  | Returned tokens => tokens
  | Scanned tokens => tokens
  end.

Definition cons_tokens (ts : list token) (r : scanned) : scanned :=
  match r with
  | Returned tokens => Returned (ts ++ tokens)
  | Scanned tokens => Scanned (ts ++ tokens)
  end.

(** The first loop, on [s = line[i:]]; [skip] counts the characters of
    a string literal that [i = j + 1] jumps over. *)
Fixpoint scan (skip : nat) (current s : string) : scanned :=
  match s with
  | EmptyString => Scanned (flush current)
  | String ch rest =>
      match skip with
      | S k => scan k current rest
      | 0 =>
          let nxt := match rest with
                     | String c _ => String c ""
                     | EmptyString => ""
                     end in
          if (Ascii.eqb ch slash && String.eqb nxt (String slash ""))%bool
          then Returned (flush current ++ [(s, Some COLOR_COMMENT)])
          else if Ascii.eqb ch quote then
            let j := literal_len rest in
            let segment := String ch (Buffer.str_take (j + 1) rest) in
            cons_tokens (flush current ++ [(segment, Some COLOR_STRING)])
              (scan (j + 1) "" rest)
          else scan 0 (current +:+ String ch "") rest
      end
  end.

Definition is_lower (c : Ascii.ascii) : bool :=
  let n := Ascii.nat_of_ascii c in (Nat.leb 97 n && Nat.leb n 122)%bool.
Definition is_upper (c : Ascii.ascii) : bool :=
  let n := Ascii.nat_of_ascii c in (Nat.leb 65 n && Nat.leb n 90)%bool.
Definition is_digit (c : Ascii.ascii) : bool :=
  let n := Ascii.nat_of_ascii c in (Nat.leb 48 n && Nat.leb n 57)%bool.
Definition is_hex (c : Ascii.ascii) : bool :=
  let n := Ascii.nat_of_ascii c in
  (is_digit c || (Nat.leb 65 n && Nat.leb n 70)
   || (Nat.leb 97 n && Nat.leb n 102))%bool.

(** [[A-Za-z_]] and [[A-Za-z0-9_]] *)
Definition is_word_start (c : Ascii.ascii) : bool :=
  (is_lower c || is_upper c || Nat.eqb (Ascii.nat_of_ascii c) 95)%bool.
Definition is_word_char (c : Ascii.ascii) : bool :=
  (is_word_start c || is_digit c)%bool.

Definition starts_with (p : Ascii.ascii -> bool) (s : string) : bool :=
  match s with
  | String c _ => p c
  | EmptyString => false
  end.

(** The characters at the start of [s] that satisfy [p], and what
    follows them. *)
Fixpoint run_len (p : Ascii.ascii -> bool) (s : string) : nat :=
  match s with
  | String c s' => if p c then S (run_len p s') else 0
  | EmptyString => 0
  end.
Definition after_run (p : Ascii.ascii -> bool) (s : string) : string :=
  Buffer.str_drop (run_len p s) s.

(** [word_regex] matches at the start of [t]: the length of the match
    of [@?[A-Za-z_][A-Za-z0-9_]*], if there is one. *)
Definition word_at (t : string) : option nat :=
  match t with
  | EmptyString => None
  | String c t' =>
      if (Ascii.eqb c at_sign && starts_with is_word_start t')%bool
      then Some (1 + run_len is_word_char t')
      else if is_word_start c then Some (run_len is_word_char t)
      else None
  end.

(** [word_regex.search(text, pos)] on [t = text[pos:]]: where the
    leftmost match starts, counted from [pos], and its length. *)
Fixpoint search_word (t : string) : option (nat * nat) :=
  match word_at t with
  | Some n => Some (0, n)
  | None =>
      match t with
      | EmptyString => None
      | String _ t' =>
          match search_word t' with
          | Some (start, n) => Some (S start, n)
          | None => None
          end
      end
  end.

(** [$]: at the end, or before a line feed that ends the text. *)
Definition at_end (s : string) : bool :=
  (String.eqb s "" || String.eqb s Trigger.newline)%bool.

(** [num_regex.match(word)] for [^(\d+(\.\d+)?|0x[0-9A-Fa-f]+)$] *)
Definition num_regex_match (word : string) : bool :=
  let decimal :=
    (starts_with is_digit word
     && let r := after_run is_digit word in
        (at_end r
         || match r with
            | String c r' =>
                (Ascii.eqb c dot && starts_with is_digit r'
                 && at_end (after_run is_digit r'))%bool
            | EmptyString => false
            end))%bool in
  let hex :=
    match word with
    | String z (String x h) =>
        (Ascii.eqb z (Ascii.ascii_of_nat 48)
         && Ascii.eqb x (Ascii.ascii_of_nat 120)
         && starts_with is_hex h && at_end (after_run is_hex h))%bool
    | _ => false
    end in
  (decimal || hex)%bool.

(** The colour of a word. *)
Definition word_color (word : string) : option color :=
  if member word keywords then Some COLOR_KEYWORD
  else if member word types then Some COLOR_TYPE
  else if String.eqb word "print" then Some COLOR_PRINT
  else if starts_with (Ascii.eqb at_sign) word then Some COLOR_ANNOTATION
  else if num_regex_match word then Some COLOR_NUMBER
  else None.

(** The second loop on one uncoloured token, on [t = text[pos:]];
    [skip] counts the characters up to [m.end()]. *)
Fixpoint words (skip : nat) (t : string) : list token :=
  match t with
  | EmptyString => []
  | String _ t' =>
      match skip with
      | S k => words k t'
      | 0 =>
          match search_word t with
          | None => [(t, None)]
          | Some (start, n) =>
              let gap := if Nat.ltb 0 start
                         then [(Buffer.str_take start t, None)] else [] in
              let word := Buffer.str_take n (Buffer.str_drop start t) in
              gap ++ (word, word_color word) :: words (start + n - 1) t'
          end
      end
  end.

(** [for text, color in tokens: ...] *)
Definition colored (tokens : list token) : list token :=
  flat_map (fun tok : token =>
              match snd tok with
              | Some _ => [tok]
              | None => words 0 (fst tok)
              end) tokens.

(** [Editor._syntax_tokens(line)] *)
Definition _syntax_tokens (line : string) : list token :=
  match scan 0 "" line with
  | Returned tokens => tokens
  | Scanned tokens => colored tokens
  end.

(** The text of a list of tokens. *)
Definition text_of (tokens : list token) : string :=
  fold_right (fun tok acc => fst tok +:+ acc) "" tokens.

End Syntax.

(** ** The project settings file *)

Module Config.
Import PyStr.

(** [str.isspace] among the code points below 256. *)
Definition is_space (c : Ascii.ascii) : bool :=
  let n := Ascii.nat_of_ascii c in
  ((Nat.leb 9 n && Nat.leb n 13) || (Nat.leb 28 n && Nat.leb n 32)
   || Nat.eqb n 133 || Nat.eqb n 160)%bool.

(** [s.strip()] *)
Fixpoint lstrip (s : string) : string :=
  match s with
  | EmptyString => EmptyString
  | String c s' => if is_space c then lstrip s' else s
  end.
Fixpoint rstrip (s : string) : string :=
  match s with
  | EmptyString => EmptyString
  | String c s' =>
      match rstrip s' with
      | EmptyString => if is_space c then EmptyString else String c EmptyString
      | rest => String c rest
      end
  end.
Definition strip (s : string) : string := rstrip (lstrip s).

(** [s.lower()] among the code points below 256. *)
Definition lower_char (c : Ascii.ascii) : Ascii.ascii :=
  let n := Ascii.nat_of_ascii c in
  if ((Nat.leb 65 n && Nat.leb n 90) || (Nat.leb 192 n && Nat.leb n 214)
      || (Nat.leb 216 n && Nat.leb n 222))%bool
  then Ascii.ascii_of_nat (n + 32) else c.
Fixpoint lower (s : string) : string :=
  match s with
  | EmptyString => EmptyString
  | String c s' => String (lower_char c) (lower s')
  end.

Definition equals_sign : Ascii.ascii := Ascii.ascii_of_nat 61.
Definition comma : Ascii.ascii := Ascii.ascii_of_nat 44.

(** [s.split("=", 1)] when ["=" in s]: what is before the first [=]
    and what is behind it. *)
Fixpoint split_eq (s : string) : option (string * string) :=
  match s with
  | EmptyString => None
  | String c s' =>
      if Ascii.eqb c equals_sign then Some (EmptyString, s')
      else match split_eq s' with
           | Some (key, value) => Some (String c key, value)
           | None => None
           end
  end.

(** [s.split("=", 1)[1]]; [None] is [IndexError]. *)
Definition after_eq (s : string) : option string :=
  match split_eq s with
  | Some (_, value) => Some value
  | None => None
  end.

(** [s.split(",")] *)
Fixpoint split_commas (cur s : string) : list string :=
  match s with
  | EmptyString => [cur]
  | String c s' =>
      if Ascii.eqb c comma then cur :: split_commas "" s'
      else split_commas (cur +:+ String c "") s'
  end.

(** [value in ("true", "1", "yes")] *)
Definition is_true (value : string) : bool :=
  existsb (String.eqb value) ["true"; "1"; "yes"].

(** [for line in f] on a file opened in text mode: the lines with
    their line feed, where a carriage return, with or without a line
    feed behind it, is read as a line feed. *)
Fixpoint file_lines_from (cur s : string) : list string :=
  match s with
  | EmptyString => if String.eqb cur "" then [] else [cur]
  | String c s' =>
      if is_lf c then (cur +:+ Trigger.newline) :: file_lines_from "" s'
      else if is_cr c then
        match s' with
        | String c' s'' =>
            if is_lf c'
            then (cur +:+ Trigger.newline) :: file_lines_from "" s''
            else (cur +:+ Trigger.newline) :: file_lines_from "" s'
        | EmptyString => [cur +:+ Trigger.newline]
        end
      else file_lines_from (cur +:+ String c "") s'
  end.
Definition file_lines (content : string) : list string :=
  file_lines_from "" content.

(** The settings [_do_build] reads. *)
Record build_settings := {
  ui_windows_enabled : bool;
  neuroshell_enabled : bool;
  imgui_glfw_enabled : bool;
  use_modular_engine : bool;
  modular_engine_sources : list string
}.

Definition no_settings : build_settings :=
  {| ui_windows_enabled := false; neuroshell_enabled := false;
     imgui_glfw_enabled := false; use_modular_engine := false;
     modular_engine_sources := [] |}.

(** The body of the loop of [_do_build] over the lines of the file;
    [None] when it raises. *)
Definition read_line (line : string) (b : build_settings)
    : option build_settings :=
  let line := strip line in
  if String.prefix "enable_ui_windows=" line then
    match after_eq line with
    | None => None
    | Some v =>
        let value := lower (strip v) in
        Some {| ui_windows_enabled := is_true value;
                neuroshell_enabled := neuroshell_enabled b;
                imgui_glfw_enabled := imgui_glfw_enabled b;
                use_modular_engine := use_modular_engine b;
                modular_engine_sources := modular_engine_sources b |}
    end
  else if String.prefix "enable_neuroshell=" line then
    match after_eq line with
    | None => None
    | Some v =>
        let value := lower (strip v) in
        Some {| ui_windows_enabled := ui_windows_enabled b;
                neuroshell_enabled := is_true value;
                imgui_glfw_enabled := imgui_glfw_enabled b;
                use_modular_engine := use_modular_engine b;
                modular_engine_sources := modular_engine_sources b |}
    end
  else if String.prefix "enable_imgui=" line then
    match after_eq line with
    | None => None
    | Some v =>
        let value := lower (strip v) in
        Some {| ui_windows_enabled := ui_windows_enabled b;
                neuroshell_enabled := neuroshell_enabled b;
                imgui_glfw_enabled := is_true value;
                use_modular_engine := use_modular_engine b;
                modular_engine_sources := modular_engine_sources b |}
    end
  else if String.prefix "use_modular_engine=" line then
    match after_eq line with
    | None => None
    | Some v =>
        let value := lower (strip v) in
        Some {| ui_windows_enabled := ui_windows_enabled b;
                neuroshell_enabled := neuroshell_enabled b;
                imgui_glfw_enabled := imgui_glfw_enabled b;
                use_modular_engine := is_true value;
                modular_engine_sources := modular_engine_sources b |}
    end
  else if String.prefix "engine_sources=" line then
    match after_eq line with
    | None => None
    | Some v =>
        let value := strip v in
        Some {| ui_windows_enabled := ui_windows_enabled b;
                neuroshell_enabled := neuroshell_enabled b;
                imgui_glfw_enabled := imgui_glfw_enabled b;
                use_modular_engine := use_modular_engine b;
                modular_engine_sources :=
                  List.filter nonempty (map strip (split_commas "" value)) |}
    end
  else Some b.

(** The loop; an exception ends it with the settings read so far. *)
Fixpoint read_lines (lines : list string) (b : build_settings)
    : build_settings :=
  match lines with
  | [] => b
  | line :: rest =>
      match read_line line b with
      | Some b' => read_lines rest b'
      | None => b
      end
  end.

(** The settings [_do_build] builds with, for the settings file at
    [config_path]. *)
Definition read_build_settings (files : gmap string string)
    (config_path : string) : build_settings :=
  match files !! config_path with
  | Some content => read_lines (file_lines content) no_settings
  | None => no_settings
  end.

(** The loop of [_compile_shaders_for_build]: it leaves at the first
    line that sets [use_modular_engine]. *)
Fixpoint shader_step_reads (lines : list string) : bool :=
  match lines with
  | [] => false
  | line :: rest =>
      let line := strip line in
      if String.prefix "use_modular_engine=" line then
        match after_eq line with
        | None => false
        | Some v => is_true (lower (strip v))
        end
      else shader_step_reads rest
  end.

(** [load_project_config] *)
Record project_config := {
  enable_ui_windows : bool;
  enable_neuroshell : bool
}.

Definition load_line (line : string) (c : project_config) : project_config :=
  let line := strip line in
  match split_eq line with
  | None => c
  | Some (key, value) =>
      let key := strip key in
      let value := strip value in
      if String.eqb key "enable_ui_windows"
      then {| enable_ui_windows := is_true (lower value);
              enable_neuroshell := enable_neuroshell c |}
      else if String.eqb key "enable_neuroshell"
      then {| enable_ui_windows := enable_ui_windows c;
              enable_neuroshell := is_true (lower value) |}
      else c
  end.

Definition load_project_config (files : gmap string string)
    (config_path : string) : project_config :=
  let config := {| enable_ui_windows := false; enable_neuroshell := false |} in
  match files !! config_path with
  | Some content => fold_left (fun c line => load_line line c)
                      (file_lines content) config
  | None => config
  end.

(** [str(b)] for a boolean. *)
Definition str_of_bool (b : bool) : string := if b then "True" else "False".

(** What the new-project dialog writes to the settings file. *)
Definition write_config (files : gmap string string) (config_path : string)
    (ui_windows neuroshell : bool) : gmap string string :=
  <[config_path :=
      ("enable_ui_windows=" +:+ str_of_bool ui_windows +:+ Trigger.newline)
      +:+ ("enable_neuroshell=" +:+ str_of_bool neuroshell +:+ Trigger.newline)]>
    files.

(** The value a line gives to the setting it names. *)
Definition setting_value (line : string) : bool :=
  match after_eq (strip line) with
  | Some v => is_true (lower (strip v))
  | None => false
  end.

(** The line names the setting [use_modular_engine]. *)
Definition sets_modular (line : string) : bool :=
  String.prefix "use_modular_engine=" (strip line).

End Config.

(** ** Syntax colouring of shaders *)

Module Glsl.
Import PyStr Syntax.

Definition glsl_keywords : list string :=
  ["layout"; "in"; "out"; "uniform"; "vec2"; "vec3"; "vec4"; "mat3"; "mat4";
   "float"; "int"; "void"; "if"; "else"; "for"; "while"; "return"; "sampler2D";
   "gl_Position"; "gl_FragColor"; "main"; "version"].

(** [word_regex.findall(text)] for [[A-Za-z_][A-Za-z0-9_]*]: the
    matches from left to right; [skip] counts the characters of the
    match found last that are still to be passed. *)
Fixpoint findall (skip : nat) (t : string) : list string :=
  match t with
  | EmptyString => []
  | String c t' =>
      match skip with
      | S k => findall k t'
      | 0 =>
          if is_word_start c then
            let n := run_len is_word_char t in
            Buffer.str_take n t :: findall (n - 1) t'
          else findall 0 t'
      end
  end.

(** The characters at the start of [t] that cannot begin a word. *)
Definition gap_len (t : string) : nat :=
  run_len (fun c => negb (is_word_start c)) t.

(** The first place at which [sub] occurs in [t]. *)
Fixpoint first_occurrence (sub t : string) : option nat :=
  if String.prefix sub t then Some 0
  else match t with
       | EmptyString => None
       | String _ t' =>
           match first_occurrence sub t' with
           | Some k => Some (S k)
           | None => None
           end
       end.

(** [text.find(sub, start)] *)
Definition find (text sub : string) (start : Z) : Z :=
  if (Buffer.len text <? start)%Z then (-1)%Z
  else
    let s := Buffer.slice_bound (String.length text) start in
    match first_occurrence sub (Buffer.str_drop s text) with
    | Some k => Z.of_nat (s + k)
    | None => (-1)%Z
    end.

(** [text[a:b]] *)
Definition slice (text : string) (a b : Z) : string :=
  let start := Buffer.slice_bound (String.length text) a in
  let stop := Buffer.slice_bound (String.length text) b in
  Buffer.str_take (stop - start) (Buffer.str_drop start text).

Definition glsl_word_color (word : string) : option color :=
  if member word glsl_keywords then Some COLOR_KEYWORD
  else if num_regex_match word then Some COLOR_NUMBER
  else None.

(** [for word in parts: ...], from [last_pos]: the tokens added and the
    [last_pos] the loop ends with. *)
Fixpoint words_loop (text : string) (parts : list string) (last_pos : Z)
    : list token * Z :=
  match parts with
  | [] => ([], last_pos)
  | word :: rest =>
      let pos := find text word last_pos in
      let gap := if (last_pos <? pos)%Z
                 then [(slice text last_pos pos, None)] else [] in
      let '(tokens, final) := words_loop text rest (pos + Buffer.len word) in
      (gap ++ (word, glsl_word_color word) :: tokens, final)
  end.

(** The second loop on one uncoloured token. *)
Definition glsl_words (text : string) : list token :=
  let '(tokens, last_pos) := words_loop text (findall 0 text) 0 in
  tokens ++ (if (last_pos <? Buffer.len text)%Z
             then [(Buffer.str_from last_pos text, None)] else []).

Definition glsl_colored (tokens : list token) : list token :=
  flat_map (fun tok : token =>
              match snd tok with
              | Some _ => [tok]
              | None => glsl_words (fst tok)
              end) tokens.

(** [Editor._syntax_tokens_glsl(line)]; its first loop is that of
    [_syntax_tokens]. *)
Definition _syntax_tokens_glsl (line : string) : list token :=
  match scan 0 "" line with
  | Returned tokens => tokens
  | Scanned tokens => glsl_colored tokens
  end.

End Glsl.

(** * Properties *)

(** ** Strings *)

Section StringFacts.
Import PyStr.

Lemma append_nil (b : string) : "" +:+ b = b.
Proof. reflexivity. Qed.

Lemma append_cons (c : Ascii.ascii) (a b : string) :
  String c a +:+ b = String c (a +:+ b).
Proof. reflexivity. Qed.

Ltac push_append := rewrite ?append_nil, ?append_cons in *; simpl in *.

Lemma append_assoc (a b c : string) : (a +:+ b) +:+ c = a +:+ (b +:+ c).
Proof. induction a as [|x a IH]; push_append; [reflexivity|]. now rewrite IH. Qed.

Lemma length_append (a b : string) :
  String.length (a +:+ b) = String.length a + String.length b.
Proof. induction a as [|x a IH]; push_append; [reflexivity|]. now rewrite IH. Qed.

Lemma endswith_cons (c : Ascii.ascii) (s suffix : string) :
  endswith (String c s) suffix
  = if String.eqb (String c s) suffix then true else endswith s suffix.
Proof. reflexivity. Qed.

Lemma endswith_refl (s : string) : endswith s s = true.
Proof.
  destruct s; [reflexivity|].
  rewrite endswith_cons. now rewrite String.eqb_refl.
Qed.

Lemma endswith_app (a suffix : string) : endswith (a +:+ suffix) suffix = true.
Proof.
  induction a as [|c a IH].
  - apply endswith_refl.
  - rewrite append_cons, endswith_cons, IH.
    now destruct (String.eqb (String c (a +:+ suffix)) suffix).
Qed.

Lemma endswith_inv (s suffix : string) :
  endswith s suffix = true -> exists a, s = a +:+ suffix.
Proof.
  induction s as [|c s IH].
  - destruct suffix; [exists ""; reflexivity | discriminate].
  - rewrite endswith_cons.
    destruct (String.eqb_spec (String c s) suffix) as [<-|_].
    + intros _. now exists "".
    + intros H. destruct (IH H) as [a ->]. now exists (String c a).
Qed.

(** Two texts with equally long endings that agree as a whole agree on
    the endings. *)
Lemma append_tail_inj (a b x y : string) :
  String.length x = String.length y -> a +:+ x = b +:+ y -> x = y.
Proof.
  revert b. induction a as [|c a IH]; intros [|d b] Hlen Heq; push_append.
  - exact Heq.
  - exfalso. rewrite Heq in Hlen. simpl in Hlen. rewrite length_append in Hlen. lia.
  - exfalso. rewrite <- Heq in Hlen. simpl in Hlen. rewrite length_append in Hlen. lia.
  - injection Heq as _ Heq. now apply (IH b).
Qed.

Lemma endswith_other (a x y : string) :
  String.length x = String.length y -> x <> y ->
  endswith (a +:+ x) y = false.
Proof.
  intros Hlen Hne. destruct (endswith (a +:+ x) y) eqn:E; [|reflexivity].
  apply endswith_inv in E as [b E]. now apply append_tail_inj in E.
Qed.

Lemma substring_prefix (a b : string) :
  String.substring 0 (String.length a) (a +:+ b) = a.
Proof.
  induction a as [|c a IH]; push_append.
  - now destruct b.
  - now rewrite IH.
Qed.

Lemma drop_last_app (a x : string) :
  drop_last (String.length x) (a +:+ x) = a.
Proof.
  unfold drop_last. rewrite length_append.
  replace (String.length a + String.length x - String.length x)
    with (String.length a) by lia.
  apply substring_prefix.
Qed.

Lemma one_line_app (a b : string) :
  one_line (a +:+ b) = (one_line a && one_line b)%bool.
Proof.
  induction a as [|c a IH]; push_append; [reflexivity|].
  rewrite IH. now rewrite andb_assoc.
Qed.



End StringFacts.

(** ** The terminal buffer *)

Section TerminalFacts.
Import Terminal.

Lemma tail_snoc (l : list string) (x : string) :
  l <> [] -> tail (l ++ [x]) = tail l ++ [x].
Proof. now destruct l. Qed.

Lemma last_tail_snoc (l : list string) (x : string) :
  l <> [] -> last (tail (l ++ [x])) = Some x.
Proof. intros H. rewrite tail_snoc by exact H. apply last_snoc. Qed.

(** C10.  A call of [_add_terminal_line] on a buffer of at most
    [TERMINAL_MAX_LINES] (500) lines leaves at most that many lines;
    the new line is the last one; a buffer that was full loses its
    first line and nothing else, and a buffer that was not full loses
    nothing. *)
Theorem add_terminal_line_bounded (line_height : Z) (line : string)
    (t : terminal) :
  length (terminal_lines t) <= TERMINAL_MAX_LINES ->
  let t' := _add_terminal_line line_height line t in
  TERMINAL_MAX_LINES = 500
  /\ length (terminal_lines t') <= TERMINAL_MAX_LINES
  /\ last (terminal_lines t') = Some line
  /\ (length (terminal_lines t) = TERMINAL_MAX_LINES ->
      terminal_lines t' = tail (terminal_lines t) ++ [line])
  /\ (length (terminal_lines t) < TERMINAL_MAX_LINES ->
      terminal_lines t' = terminal_lines t ++ [line]).
Proof.
  intros Hlen. simpl. unfold pop_front.
  set (l := terminal_lines t) in *.
  assert (Happ : length (l ++ [line]) = S (length l))
    by (rewrite length_app; simpl; lia).
  split; [reflexivity|].
  destruct (Nat.ltb_spec TERMINAL_MAX_LINES (length (l ++ [line]))) as [Hfull|Hroom].
  - assert (Hl : length l = TERMINAL_MAX_LINES) by lia.
    assert (Hne : l <> []) by (intros ->; discriminate Hl).
    split; [|split; [|split]].
    + destruct l; [congruence|]. simpl in *. lia.
    + now apply last_tail_snoc.
    + intros _. now apply tail_snoc.
    + lia.
  - split; [|split; [|split]].
    + exact Hroom.
    + apply last_snoc.
    + lia.
    + reflexivity.
Qed.


Lemma add_terminal_line_bounded_witness :
  length (terminal_lines full_buffer) <= TERMINAL_MAX_LINES
  /\ let t' := _add_terminal_line 18 "new" full_buffer in
     TERMINAL_MAX_LINES = 500
     /\ length (terminal_lines t') <= TERMINAL_MAX_LINES
     /\ last (terminal_lines t') = Some "new"
     /\ (length (terminal_lines full_buffer) = TERMINAL_MAX_LINES ->
         terminal_lines t' = tail (terminal_lines full_buffer) ++ ["new"])
     /\ (length (terminal_lines full_buffer) < TERMINAL_MAX_LINES ->
         terminal_lines t' = terminal_lines full_buffer ++ ["new"]).
Proof.
  assert (H : length (terminal_lines full_buffer) <= TERMINAL_MAX_LINES)
    by (apply Nat.leb_le; vm_compute; reflexivity).
  split; [exact H|].
  exact (add_terminal_line_bounded 18 "new" full_buffer H).
Defined.

End TerminalFacts.

(** ** Shader compiler invocation *)

Section ShaderFacts.
Import PyStr Shaders.


Ltac ends_with :=
  rewrite ?endswith_app;
  repeat (rewrite endswith_other by (reflexivity || discriminate)).

Lemma compile_cmd_glsl (glslc_path stem : string) :
  compile_cmd glslc_path (stem +:+ ".glsl")
  = [glslc_path; stem +:+ ".glsl"; "-o"; stem +:+ ".spv"].
Proof.
  unfold compile_cmd, stage_flag_of, spv_path_of. ends_with.
  change 5 with (String.length ".glsl").
  now rewrite (drop_last_app stem ".glsl").
Qed.

(** C9, as stated, fails: a [.glsl] shader is compiled without a stage
    flag, and its output path replaces the extension. *)
Lemma glsl_breaks_flag_and_suffix : ~ flag_and_suffix_for_all.
Proof.
  intros H.
  destruct (H ".glsl" ltac:(simpl; tauto) "glslc" "shaders/sky") as [flag Hcmd].
  vm_compute in Hcmd. discriminate Hcmd.
Qed.

(** C9, amended.  The command is the compiler, a stage flag for
    [.vert], [.frag], [.comp] and [.geom] and none for [.glsl], [.tesc]
    and [.tese], the input path, ["-o"] and the output path; the output
    path is the input path with [".spv"] appended, except for [.glsl],
    where [".spv"] replaces the extension. *)
Theorem compile_cmd_by_extension (glslc_path stem : string) :
  let cmd ext := compile_cmd glslc_path (stem +:+ ext) in
  let appended ext := (stem +:+ ext) +:+ ".spv" in
  cmd ".vert" = [glslc_path; "-fshader-stage=vertex"; stem +:+ ".vert"; "-o"; appended ".vert"]
  /\ cmd ".frag" = [glslc_path; "-fshader-stage=fragment"; stem +:+ ".frag"; "-o"; appended ".frag"]
  /\ cmd ".comp" = [glslc_path; "-fshader-stage=compute"; stem +:+ ".comp"; "-o"; appended ".comp"]
  /\ cmd ".geom" = [glslc_path; "-fshader-stage=geometry"; stem +:+ ".geom"; "-o"; appended ".geom"]
  /\ cmd ".tesc" = [glslc_path; stem +:+ ".tesc"; "-o"; appended ".tesc"]
  /\ cmd ".tese" = [glslc_path; stem +:+ ".tese"; "-o"; appended ".tese"]
  /\ cmd ".glsl" = [glslc_path; stem +:+ ".glsl"; "-o"; stem +:+ ".spv"].
Proof.
  intros cmd appended. subst cmd appended. cbv beta.
  repeat split; try apply compile_cmd_glsl;
    unfold compile_cmd, stage_flag_of, spv_path_of; ends_with; reflexivity.
Qed.

(** Every file that [find_shaders_in_project] collects is a stem
    followed by one of the seven extensions. *)
Lemma shader_file_has_extension (file : string) :
  is_shader_file file = true ->
  exists stem ext, In ext shader_extensions /\ file = stem +:+ ext.
Proof.
  unfold is_shader_file. rewrite existsb_exists.
  intros (ext & Hin & Hend). apply endswith_inv in Hend as [stem ->].
  now exists stem, ext.
Qed.

End ShaderFacts.

(** ** Running an external tool *)

Section RunStepFacts.
Import PyStr RunStep.




End RunStepFacts.

(** ** Auto-hotload triggers *)

Section TriggerFacts.
Import PyStr Trigger.

Variable abspath : string -> string.
Variable basename : string -> string.

Local Abbreviation save := (save basename).
Local Abbreviation on_modified := (on_modified abspath).
Local Abbreviation step := (step abspath basename).
Local Abbreviation run := (run abspath basename).


Lemma Qgtb_true (a b : Q) : Qgtb a b = true <-> (b < a)%Q.
Proof.
  unfold Qgtb. rewrite negb_true_iff, <- not_true_iff_false, Qle_bool_iff.
  split; [apply Qnot_le_lt | apply Qlt_not_le].
Qed.

Lemma Qgtb_false (a b : Q) : Qgtb a b = false <-> (a <= b)%Q.
Proof. unfold Qgtb. now rewrite negb_false_iff, Qle_bool_iff. Qed.

Lemma run_app (xs ys : list action) (s : session) :
  run (xs ++ ys) s = run ys (run xs s).
Proof. revert s. induction xs as [|a xs IH]; intros s; simpl; [reflexivity | apply IH]. Qed.

(** *** Suppression *)

Lemma save_suppressed now write_ok fs e :
  build_flags_set e = true ->
  match save now write_ok fs e with
  | Some (_, e', fired) =>
      fired = false
      /\ _building e' = _building e /\ _just_built e' = _just_built e
      /\ last_hotload_time e' = last_hotload_time e
  | None => True
  end.
Proof.
  unfold build_flags_set, save. intros Hflags.
  destruct write_ok; cbn [negb]; [|exact I].
  cbn [set_status view_mode auto_hotload_enabled _building _just_built
       last_hotload_time].
  destruct (_building e) eqn:Hb, (_just_built e) eqn:Hj;
    try discriminate Hflags;
    rewrite ?andb_false_r; cbn; rewrite ?Hb, ?Hj; auto.
Qed.

Lemma on_modified_suppressed event now fs h e :
  build_flags_set e = true ->
  on_modified event now fs h e = (h, e, false).
Proof.
  unfold build_flags_set, on_modified. intros ->.
  now repeat match goal with |- context [if ?b then _ else _] => destruct b end.
Qed.

Lemma step_suppressed a s :
  build_flags_set (ed s) = true ->
  hotloads_started (step a s) = hotloads_started s
  /\ build_flags_set (ed (step a s)) = true
  /\ watcher (step a s) = watcher s
  /\ last_hotload_time (ed (step a s)) = last_hotload_time (ed s).
Proof.
  intros Hflags. destruct a as [now write_ok|event now|file content]; simpl.
  - pose proof (save_suppressed now write_ok (files s) (ed s) Hflags) as H.
    destruct (save now write_ok (files s) (ed s)) as [[[fs' e'] fired]|].
    + destruct H as (-> & Hb & Hj & Ht). simpl.
      unfold build_flags_set in *. now rewrite Hb, Hj.
    + auto.
  - rewrite on_modified_suppressed by exact Hflags. simpl. now destruct s.
  - auto.
Qed.

(** C6.  While [_building] or [_just_built] is set, no call of
    [Editor.save] and no call of [on_modified] starts the hotload
    thread, and no sequence of saves, notifications and writes by
    other programs, however long, starts one or changes the flags, the
    watcher's state or [last_hotload_time]. *)
Theorem no_trigger_while_building (s : session) :
  build_flags_set (ed s) = true ->
  (forall now write_ok fs' e' fired,
      save now write_ok (files s) (ed s) = Some (fs', e', fired) ->
      fired = false)
  /\ (forall event now,
      snd (on_modified event now (files s) (watcher s) (ed s)) = false)
  /\ (forall actions,
      hotloads_started (run actions s) = hotloads_started s
      /\ build_flags_set (ed (run actions s)) = true
      /\ watcher (run actions s) = watcher s
      /\ last_hotload_time (ed (run actions s)) = last_hotload_time (ed s)).
Proof.
  intros Hflags. split; [|split].
  - intros now write_ok fs' e' fired Hsave.
    pose proof (save_suppressed now write_ok (files s) (ed s) Hflags) as H.
    rewrite Hsave in H. tauto.
  - intros event now. now rewrite on_modified_suppressed.
  - intros actions. revert s Hflags.
    induction actions as [|a actions IH]; intros s Hflags; simpl; [auto|].
    destruct (step_suppressed a s Hflags) as (Hn & Hf & Hw & Ht).
    destruct (IH _ Hf) as (Hn' & Hf' & Hw' & Ht').
    rewrite Hn', Hw', Ht'. auto.
Qed.

(** *** Debounce *)


Lemma step_within_interval a s :
  within_interval (last_hotload_time (ed s)) a ->
  hotloads_started (step a s) = hotloads_started s
  /\ last_hotload_time (ed (step a s)) = last_hotload_time (ed s).
Proof.
  unfold within_interval.
  destruct a as [now write_ok|event now|file content]; simpl; intros Hin.
  - apply Qgtb_false in Hin. unfold save.
    destruct write_ok; cbn [negb]; [|auto].
    cbn [set_status view_mode auto_hotload_enabled _building _just_built
         last_hotload_time].
    rewrite Hin.
    now match goal with |- context [if ?b then _ else _] => destruct b end.
  - apply Qgtb_false in Hin. unfold on_modified. rewrite Hin.
    now repeat match goal with |- context [if ?b then _ else _] => destruct b end.
  - auto.
Qed.

Lemma run_within_interval actions s :
  Forall (within_interval (last_hotload_time (ed s))) actions ->
  hotloads_started (run actions s) = hotloads_started s
  /\ last_hotload_time (ed (run actions s)) = last_hotload_time (ed s).
Proof.
  revert s. induction actions as [|a actions IH]; intros s Hall; simpl; [auto|].
  inversion Hall as [|? ? Ha Hrest]; subst.
  destruct (step_within_interval a s Ha) as (Hn & Ht).
  rewrite <- Ht in Hrest. destruct (IH _ Hrest) as (Hn' & Ht').
  rewrite Hn', Ht'. auto.
Qed.

Lemma on_modified_accepts event t0 fs h e :
  is_watched abspath event e = true ->
  build_flags_set e = false ->
  auto_hotload_enabled e = true ->
  has_hot_systems fs e = true ->
  (1 < t0 - last_modified h)%Q ->
  (2 < t0 - last_hotload_time e)%Q ->
  on_modified event t0 fs h e
  = ({| last_modified := t0 |}, set_last_hotload_time t0 e, true).
Proof.
  unfold is_watched, build_flags_set, on_modified.
  intros Hw Hflags Hauto Hhot Hmod Hlast.
  apply andb_prop in Hw as [Hw Habs]. apply andb_prop in Hw as [Hw Hhd].
  apply andb_prop in Hw as [Hdir Hdll].
  apply negb_true_iff in Hdir, Hdll.
  apply Qgtb_true in Hmod, Hlast.
  now rewrite Hdir, Hdll, Hhd, Habs, Hflags, Hmod, Hlast, Hauto, Hhot.
Qed.

(** C7.  From a state in which the watcher accepts a notification for
    the project file at time [t0], that notification followed by any
    number [N >= 0] of further notifications for the file, each within
    2.0 seconds of [t0], starts the hotload thread exactly once: the
    later notifications are ignored. *)
Theorem debounce_exactly_once (event : fs_event) (t0 : Q) (later : list Q)
    (s : session) :
  is_watched abspath event (ed s) = true ->
  build_flags_set (ed s) = false ->
  auto_hotload_enabled (ed s) = true ->
  has_hot_systems (files s) (ed s) = true ->
  (1 < t0 - last_modified (watcher s))%Q ->
  (2 < t0 - last_hotload_time (ed s))%Q ->
  Forall (fun t => (t - t0 <= 2)%Q) later ->
  let s1 := step (Notify event t0) s in
  let s' := run (map (Notify event) later) s1 in
  hotloads_started s1 = S (hotloads_started s)
  /\ hotloads_started s' = hotloads_started s1
  /\ hotloads_started (run (Notify event t0 :: map (Notify event) later) s)
     = S (hotloads_started s)
  /\ last_hotload_time (ed s') = t0.
Proof.
  intros Hw Hflags Hauto Hhot Hmod Hlast Hlater s1 s'.
  assert (Hs1 : hotloads_started s1 = S (hotloads_started s)
                /\ last_hotload_time (ed s1) = t0).
  { subst s1. simpl.
    now rewrite (on_modified_accepts event t0 (files s) (watcher s) (ed s)). }
  destruct Hs1 as (Hn1 & Ht1).
  assert (Hquiet : Forall (within_interval (last_hotload_time (ed s1)))
                          (map (Notify event) later)).
  { rewrite Ht1. apply Forall_map.
    eapply Forall_impl; [exact Hlater|]. intros t Ht. exact Ht. }
  destruct (run_within_interval _ _ Hquiet) as (Hn' & Ht').
  fold s' in Hn', Ht'.
  split; [exact Hn1|]. split; [exact Hn'|]. split.
  - change (hotloads_started s' = S (hotloads_started s)). congruence.
  - congruence.
Qed.

End TriggerFacts.

(** *** Concrete runs of the triggers *)

Section TriggerRuns.
Import Trigger.

Lemma no_trigger_while_building_witness :
  build_flags_set (ed (demo_session true)) = true
  /\ hotloads_started
       (run id id
          [Notify demo_event 100; DoSave 103 true;
           Notify demo_event 106]
          (demo_session true)) = 0.
Proof.
  assert (H : build_flags_set (ed (demo_session true)) = true)
    by reflexivity.
  split; [exact H|].
  destruct (no_trigger_while_building id id (demo_session true) H)
    as (_ & _ & Hrun).
  destruct (Hrun [Notify demo_event 100; DoSave 103 true;
                  Notify demo_event 106]) as (Hn & _).
  exact Hn.
Defined.

Lemma debounce_exactly_once_witness :
  hotloads_started
    (run id id
       (Notify demo_event 100
        :: map (Notify demo_event) [100.2; 100.5; 101.9; 102]%Q)
       (demo_session false)) = 1.
Proof.
  assert (Hlater : Forall (fun t => (t - 100 <= 2)%Q) [100.2; 100.5; 101.9; 102]%Q).
  { repeat constructor; unfold Qle; simpl; lia. }
  assert (Hmod : (1 < 100 - 0)%Q) by reflexivity.
  assert (Hlast : (2 < 100 - 0)%Q) by reflexivity.
  destruct (debounce_exactly_once id id demo_event 100
              [100.2; 100.5; 101.9; 102]%Q (demo_session false)
              eq_refl eq_refl eq_refl eq_refl Hmod Hlast Hlater)
    as (_ & _ & Hn & _).
  exact Hn.
Defined.

End TriggerRuns.

(** ** The DLL swap retry loop *)

Section SwapFacts.
Import Swap.

(** The environment and the DLL are arbitrary. *)
Variable denied : nat -> bool.
Variable dll_path : string.
Local Abbreviation loaded := dll_path.
Local Abbreviation staged := (dll_new_path dll_path).
Local Abbreviation backup := (dll_old_path dll_path).

(** *** The three paths are distinct *)

Lemma append_ne_self (s x : string) : x <> "" -> s +:+ x <> s.
Proof.
  intros Hx H. apply (f_equal String.length) in H.
  rewrite length_append in H. destruct x; [congruence|]. simpl in H. lia.
Qed.

Lemma staged_ne_loaded : staged <> loaded.
Proof. apply append_ne_self. discriminate. Qed.
Lemma backup_ne_loaded : backup <> loaded.
Proof. apply append_ne_self. discriminate. Qed.
Lemma staged_ne_backup : staged <> backup.
Proof. unfold dll_new_path, dll_old_path. intros H. apply String.app_inj in H. discriminate. Qed.

Ltac paths :=
  first [ exact staged_ne_loaded | exact backup_ne_loaded | exact staged_ne_backup
        | exact (not_eq_sym staged_ne_loaded) | exact (not_eq_sym backup_ne_loaded)
        | exact (not_eq_sym staged_ne_backup) ].

(** *** Running the loop body on an arbitrary world

    [exec] unfolds the body and splits on what the body tests: whether a
    path exists, whether the environment refuses a call, and whether
    the attempt is the last one.  Lookups in the files a call leaves
    are rewritten to lookups in the files it found. *)

Ltac reduce :=
  cbv beta iota zeta delta
    [attempt_body retire_loaded promote_staged bind try_except ret modify
     os_path_exists os_remove os_rename os_call time_sleep log apply_op
     fst snd files os_calls trace log_lines replaced any_replaced
     record_event with_files count_call append_log assign_replaced
     assign_any_replaced negb andb].

Ltac exec_step :=
  first
    [ progress reduce
    | rewrite lookup_insert_eq
    | rewrite lookup_delete_eq
    | rewrite lookup_insert_ne by paths
    | rewrite lookup_delete_ne by paths
    | match goal with
      | H : ?fs !! ?p = _ |- context [?fs !! ?p] => rewrite H
      | H : denied ?n = _ |- context [denied ?n] => rewrite H
      end
    | match goal with
      | |- context [if denied ?n then _ else _] => destruct (denied n) eqn:?
      | |- context [match ?fs !! ?p with _ => _ end] =>
          is_var fs; destruct (fs !! p) eqn:?
      | |- context [if Nat.ltb ?a ?b then _ else _] => destruct (Nat.ltb_spec a b)
      end ].

Ltac exec := repeat exec_step.

(** *** Which renames a trace holds *)

Lemma happened_app o t1 t2 : happened o (t1 ++ t2) = (happened o t1 || happened o t2)%bool.
Proof. apply existsb_app. Qed.

Lemma happened_one o e : happened o [e] = succeeded o e.
Proof. unfold happened. simpl. apply orb_false_r. Qed.

Lemma succeeded_same o fs fs' :
  succeeded o (EvOs {| op := o; ok := true; pre := fs; post := fs' |}) = true.
Proof. simpl. now apply bool_decide_eq_true_2. Qed.

Lemma succeeded_other o o' fs fs' :
  o' <> o ->
  succeeded o (EvOs {| op := o'; ok := true; pre := fs; post := fs' |}) = false.
Proof. intros H. simpl. now apply bool_decide_eq_false_2. Qed.

Lemma remove_ne_retire f : Remove f <> retire dll_path.
Proof. discriminate. Qed.
Lemma remove_ne_promote f : Remove f <> promote dll_path.
Proof. discriminate. Qed.
Lemma retire_ne_promote : retire dll_path <> promote dll_path.
Proof. intros [= H _]. now apply staged_ne_loaded. Qed.
Lemma promote_ne_retire : promote dll_path <> retire dll_path.
Proof. intros [= H _]. now apply staged_ne_loaded. Qed.

Ltac events :=
  cbn [trace]; rewrite ?happened_app, ?happened_one;
  change (Rename loaded backup) with (retire dll_path);
  change (Rename staged loaded) with (promote dll_path);
  rewrite ?succeeded_same,
    ?(succeeded_other _ _ _ _ (remove_ne_retire _)),
    ?(succeeded_other _ _ _ _ (remove_ne_promote _)),
    ?(succeeded_other _ _ _ _ retire_ne_promote),
    ?(succeeded_other _ _ _ _ promote_ne_retire);
  cbn [succeeded ok andb orb].

Ltac lookups :=
  cbn [files];
  repeat first [ rewrite lookup_insert_eq | rewrite lookup_delete_eq
               | rewrite lookup_insert_ne by paths
               | rewrite lookup_delete_ne by paths ].

Ltac side :=
  solve [ reflexivity | eassumption | congruence
        | intros [? ?]; congruence
        | lookups; first [reflexivity | eassumption | congruence]
        | events; repeat match goal with H : happened _ _ = _ |- _ => rewrite H end;
          first [reflexivity | intros; reflexivity | tauto ] ].

(** *** The phases of a swap *)

(** One pass of the body keeps the swap in a phase, and marks it
    [replaced] only on its way out of the loop. *)
Lemma body_phase fs0 a w :
  replaced w = false ->
  phase dll_path fs0 w ->
  let r := attempt_body denied dll_path a w in
  phase dll_path fs0 (snd r)
  /\ exists f, fst r = Done f /\ (replaced (snd r) = true -> f = Break).
Proof.
  destruct w as [fs n tr lg rp ar]. simpl. intros -> Hphase.
  exec.
  all: split; [|eexists; split; [reflexivity|]; cbn; try discriminate; auto].
  all: destruct Hphase as [H1 H2 H3 H4 H5|c H1 H2 H3 H4 H5 H6 H7|c H1 H2 H3 H4 H5 H6];
    cbn [files trace replaced] in *; try discriminate; try congruence.
  all: repeat match goal with
              | H : ?m !! ?p = _, H' : ?m !! ?p = ?m0 !! ?p |- _ =>
                  rewrite H in H'; symmetry in H'
              end.
  all: try solve [ eapply Untouched; side ].
  all: try solve [ eapply Retired; side ].
  all: try solve [ eapply Committed; side ].
Qed.

Lemma loop_phase fs0 attempts w :
  replaced w = false ->
  phase dll_path fs0 w ->
  let r := retry_loop denied dll_path attempts w in
  phase dll_path fs0 (snd r) /\ fst r = Done tt.
Proof.
  revert w. induction attempts as [|a rest IH]; intros w Hrep Hphase; simpl.
  - auto.
  - unfold bind.
    destruct (body_phase fs0 a w Hrep Hphase) as (Hphase' & f & Hf & Hbreak).
    destruct (attempt_body denied dll_path a w) as [o w1]. simpl in *. subst o.
    destruct f.
    + apply IH; [|exact Hphase'].
      destruct (replaced w1); [now specialize (Hbreak eq_refl)|reflexivity].
    + auto.
Qed.

Lemma phase_log fs0 l w : phase dll_path fs0 w -> phase dll_path fs0 (append_log l w).
Proof.
  intros [H1 H2 H3 H4 H5|c H1 H2 H3 H4 H5 H6 H7|c H1 H2 H3 H4 H5 H6];
    [eapply Untouched | eapply Retired | eapply Committed]; eauto.
Qed.

Lemma swap_phase fs0 : phase dll_path fs0 (swap denied dll_path fs0).
Proof.
  unfold swap, replace_dll, bind, modify.
  assert (Hstart : phase dll_path fs0 (assign_replaced false (start fs0)))
    by (apply Untouched; reflexivity).
  destruct (loop_phase fs0 (seq 0 max_retries) (assign_replaced false (start fs0))
              eq_refl Hstart) as (Hphase & Hdone).
  destruct (retry_loop denied dll_path (seq 0 max_retries) _) as [o w]. simpl in *.
  subst o. destruct (replaced w); simpl; [exact Hphase | now apply phase_log].
Qed.

(** *** No call loses the loaded module *)
Ltac rewrite_lookups :=
  repeat match goal with
         | H : ?m !! ?p = _ |- context [?m !! ?p] => rewrite H
         end.

Lemma body_keeps_module a w :
  Forall (step_keeps_module loaded backup) (trace w) ->
  Forall (step_keeps_module loaded backup) (trace (snd (attempt_body denied dll_path a w))).
Proof.
  destruct w as [fs n tr lg rp ar]. simpl. intros Hall.
  exec.
  all: cbn [trace]; repeat (apply Forall_app; split); try exact Hall.
  all: apply Forall_singleton; cbn [step_keeps_module pre post]; try exact I.
  all: intros content; lookups; rewrite_lookups; intros Hc;
    first [discriminate Hc | left; exact Hc | right; exact Hc].
Qed.


(** A generic loop rule: what the body preserves, the loop preserves. *)
Lemma loop_preserves (P : world -> Prop) :
  (forall a w, P w -> P (snd (attempt_body denied dll_path a w))) ->
  forall attempts w, P w -> P (snd (retry_loop denied dll_path attempts w)).
Proof.
  intros Hbody attempts. induction attempts as [|a rest IH]; intros w Hw; simpl.
  - exact Hw.
  - unfold bind. specialize (Hbody a w Hw).
    destruct (attempt_body denied dll_path a w) as [[[|]|] w1]; simpl in *; auto.
Qed.

Lemma swap_preserves (P : world -> Prop) fs :
  (forall a w, P w -> P (snd (attempt_body denied dll_path a w))) ->
  (forall w b, P w -> P (assign_replaced b w)) ->
  (forall w l, P w -> P (append_log l w)) ->
  P (start fs) -> P (swap denied dll_path fs).
Proof.
  intros Hbody Hassign Hlog Hstart.
  unfold swap, replace_dll, bind, modify.
  pose proof (loop_preserves P Hbody (seq 0 max_retries) _ (Hassign _ false Hstart)) as H.
  destruct (retry_loop denied dll_path (seq 0 max_retries) _) as [[[]|] w]; simpl in *.
  - destruct (replaced w); simpl; auto.
  - exact H.
Qed.

Lemma swap_keeps_module fs :
  Forall (step_keeps_module loaded backup) (trace (swap denied dll_path fs)).
Proof.
  apply (swap_preserves (fun w => Forall (step_keeps_module loaded backup) (trace w))).
  - apply body_keeps_module.
  - auto.
  - auto.
  - constructor.
Qed.

(** *** The trace is what the file system did *)
Lemma replays_app fs t1 fs1 t2 fs2 :
  replays fs t1 fs1 -> replays fs1 t2 fs2 -> replays fs (t1 ++ t2) fs2.
Proof. induction 1; simpl; intros; try constructor; auto. Qed.

Lemma body_replays fs0 a w :
  replays fs0 (trace w) (files w) ->
  let w' := snd (attempt_body denied dll_path a w) in
  replays fs0 (trace w') (files w').
Proof.
  destruct w as [fs n tr lg rp ar]. simpl. intros Hall.
  exec.
  all: cbn [trace files]; rewrite <- ?app_assoc;
    eapply replays_app; [exact Hall|]; cbn [app].
  all: repeat first
         [ apply replays_nil
         | apply replays_attempt
         | apply replays_sleep
         | apply replays_failed
         | apply replays_ok;
           [ cbn [apply_op]; lookups; rewrite_lookups; reflexivity | ] ].
Qed.

Lemma swap_replays fs : replays fs (trace (swap denied dll_path fs)) (files (swap denied dll_path fs)).
Proof.
  apply (swap_preserves (fun w => replays fs (trace w) (files w))).
  - apply body_replays.
  - auto.
  - auto.
  - constructor.
Qed.

(** *** Attempts and sleeps *)
Lemma schedule_app t1 t2 : schedule (t1 ++ t2) = schedule t1 ++ schedule t2.
Proof. apply List.filter_app. Qed.







(** *** A module that is never moved is never touched *)
Lemma body_extends a w :
  exists evs, trace (snd (attempt_body denied dll_path a w)) = trace w ++ evs.
Proof.
  destruct w as [fs n tr lg rp ar]. simpl.
  exec.
  all: cbn [trace]; rewrite <- ?app_assoc; eexists; reflexivity.
Qed.

Lemma happened_prefix o t evs : happened o (t ++ evs) = false -> happened o t = false.
Proof. rewrite happened_app. now intros [H _]%orb_false_elim. Qed.

Lemma body_untouched content a w :
  let w' := snd (attempt_body denied dll_path a w) in
  happened (retire dll_path) (trace w') = false ->
  files w !! loaded = Some content ->
  Forall (step_leaves loaded (Some content)) (trace w) ->
  files w' !! loaded = Some content
  /\ Forall (step_leaves loaded (Some content)) (trace w').
Proof.
  destruct w as [fs n tr lg rp ar]. simpl.
  exec.
  all: intros Hnever Hloaded Hall; try congruence.
  all: try (exfalso; revert Hnever; events; rewrite ?orb_true_r; discriminate).
  all: split; [lookups; rewrite_lookups; congruence|].
  all: cbn [trace]; repeat (apply Forall_app; split); try exact Hall.
  all: apply Forall_singleton; cbn [step_leaves post]; try exact I.
  all: lookups; rewrite_lookups; congruence.
Qed.

Lemma swap_untouched fs content :
  fs !! loaded = Some content ->
  untouched_so_far dll_path content (swap denied dll_path fs).
Proof.
  intros Hfs. apply swap_preserves; unfold untouched_so_far.
  - intros a w Hw Hnever.
    destruct (body_extends a w) as [evs Hevs].
    assert (Hbefore : happened (retire dll_path) (trace w) = false).
    { rewrite Hevs in Hnever. now apply happened_prefix in Hnever. }
    destruct (Hw Hbefore) as (Hloaded & Hall).
    now apply body_untouched.
  - auto.
  - auto.
  - intros _. split; [exact Hfs | constructor].
Qed.


(** *** Renames never overwrite *)

Lemma body_overwrites_nothing a w :
  Forall step_overwrites_nothing (trace w) ->
  Forall step_overwrites_nothing (trace (snd (attempt_body denied dll_path a w))).
Proof.
  destruct w as [fs n tr lg rp ar]. simpl. intros Hall.
  exec.
  all: cbn [trace]; repeat (apply Forall_app; split); try exact Hall.
  all: apply Forall_singleton; cbn [step_overwrites_nothing op ok pre];
    try exact I; try discriminate.
  all: intros _; lookups; rewrite_lookups; reflexivity.
Qed.

Lemma swap_overwrites_nothing fs :
  Forall step_overwrites_nothing (trace (swap denied dll_path fs)).
Proof.
  apply (swap_preserves (fun w => Forall step_overwrites_nothing (trace w))).
  - apply body_overwrites_nothing.
  - auto.
  - auto.
  - constructor.
Qed.

(** *** A locked DLL uses up the attempts *)

Lemma attempts_app t1 t2 : attempts (t1 ++ t2) = attempts t1 ++ attempts t2.
Proof. apply flat_map_app. Qed.

Lemma body_locked content a w :
  let r := attempt_body denied dll_path a w in
  happened (retire dll_path) (trace (snd r)) = false ->
  files w !! loaded = Some content ->
  fst r = Done (if Nat.ltb a (max_retries - 1) then Continue else Break)
  /\ files (snd r) !! loaded = Some content
  /\ attempts (trace (snd r)) = attempts (trace w) ++ [a].
Proof.
  destruct w as [fs n tr lg rp ar]. simpl.
  exec.
  all: intros Hnever Hloaded; try congruence.
  all: try (exfalso; revert Hnever; events; rewrite ?orb_true_r; discriminate).
  all: cbn [trace]; rewrite ?attempts_app; cbn [attempts flat_map app];
    rewrite ?app_nil_r.
  all: try (exfalso; unfold max_retries in *; simpl in *; lia).
  all: split; [reflexivity|]; split; [|reflexivity].
  all: lookups; rewrite_lookups; congruence.
Qed.

Lemma loop_extends attempts_left w :
  exists evs,
    trace (snd (retry_loop denied dll_path attempts_left w)) = trace w ++ evs.
Proof.
  revert w. induction attempts_left as [|a rest IH]; intros w; simpl.
  - exists []. now rewrite app_nil_r.
  - unfold bind. destruct (body_extends a w) as [evs Hevs].
    destruct (attempt_body denied dll_path a w) as [[[|]|] w1]; simpl in *;
      try (now exists evs).
    destruct (IH w1) as [evs' Hevs']. exists (evs ++ evs').
    now rewrite Hevs', Hevs, app_assoc.
Qed.

Lemma loop_locked content k : forall a w,
  a + k = max_retries ->
  let w' := snd (retry_loop denied dll_path (seq a k) w) in
  happened (retire dll_path) (trace w') = false ->
  files w !! loaded = Some content ->
  attempts (trace w') = attempts (trace w) ++ seq a k.
Proof.
  induction k as [|k IH]; intros a w Hk; simpl.
  - intros _ _. now rewrite app_nil_r.
  - unfold bind. intros Hnever Hloaded.
    pose proof (body_locked content a w) as Hbody.
    destruct (attempt_body denied dll_path a w) as [o w1] eqn:Hrun. simpl in *.
    assert (Hnever1 : happened (retire dll_path) (trace w1) = false).
    { destruct o as [[|]|]; simpl in Hnever; try exact Hnever.
      destruct (loop_extends (seq (S a) k) w1) as [evs Hevs].
      rewrite Hevs in Hnever. now apply happened_prefix in Hnever. }
    destruct (Hbody Hnever1 Hloaded) as (Ho & Hloaded1 & Hatt). subst o.
    clear Hbody Hrun. revert Hnever.
    change (max_retries - 1) with 14 in *.
    destruct (Nat.ltb_spec a 14) as [Hlt|Hge]; intros Hnever.
    + rewrite (IH (S a) w1 ltac:(lia) Hnever Hloaded1).
      rewrite Hatt, <- app_assoc. reflexivity.
    + assert (k = 0) by (unfold max_retries in *; simpl in *; lia). subst k.
      simpl. exact Hatt.
Qed.

Lemma swap_locked fs content :
  fs !! loaded = Some content ->
  happened (retire dll_path) (trace (swap denied dll_path fs)) = false ->
  attempts (trace (swap denied dll_path fs)) = seq 0 max_retries.
Proof.
  unfold swap, replace_dll, bind, modify. intros Hfs.
  pose proof (loop_locked content max_retries 0 (assign_replaced false (start fs))
                eq_refl) as Hloop.
  destruct (retry_loop denied dll_path (seq 0 max_retries) _) as [[[]|] w];
    simpl in *.
  - destruct (replaced w); simpl; intros Hnever; now apply Hloop.
  - intros Hnever; now apply Hloop.
Qed.
(** *** The claims about the swap *)

(** C1.  When the swap is marked [replaced], which happens only after
    the rename of the new DLL to the loaded path succeeded, the staging
    path no longer exists and the loaded path exists; it holds what the
    staging path held when the swap started. *)
Theorem commit_invariant (fs : gmap string string) :
  let w := swap denied dll_path fs in
  replaced w = true ->
  happened (promote dll_path) (trace w) = true
  /\ files w !! staged = None
  /\ is_Some (files w !! loaded)
  /\ files w !! loaded = fs !! staged.
Proof.
  intros w Hrep. subst w.
  destruct (swap_phase fs) as [? ? H|c ? ? ? ? H|c H0 H1 H2 H3 H4 H5];
    try congruence.
  split; [exact H4|]. split; [exact H1|]. split; [now exists c|congruence].
Qed.

(** C2.  When the loaded DLL exists and its rename to the backup path
    never succeeds, all [max_retries] attempts are made, no call of the
    loop changes what the loaded path holds, the loaded path holds at
    the end what it held at the start, and the swap is not marked
    [replaced]. *)
Theorem abandon_leaves_loaded_untouched (fs : gmap string string)
    (content : string) :
  let w := swap denied dll_path fs in
  fs !! loaded = Some content ->
  happened (retire dll_path) (trace w) = false ->
  files w !! loaded = Some content
  /\ Forall (step_leaves loaded (Some content)) (trace w)
  /\ attempts (trace w) = seq 0 max_retries
  /\ replaced w = false.
Proof.
  intros w Hfs Hnever. subst w.
  destruct (swap_untouched fs content Hfs Hnever) as (Hloaded & Hall).
  split; [exact Hloaded|]. split; [exact Hall|].
  split; [now apply (swap_locked fs content)|].
  destruct (swap_phase fs) as [? ? H|c ? ? ? ? H|c H0 H1 H2 H3 H4 H5];
    try congruence.
  rewrite H5 in Hnever by (now exists content). discriminate.
Qed.

(** C3.  When the loaded DLL was moved to the backup path and the rename
    of the new DLL to the loaded path never succeeds, then at the end
    the backup path holds the old DLL, the loaded path is absent, the
    staging path holds what it held at the start, and the swap is not
    marked [replaced]. *)
Theorem abandoned_swap_recoverable (fs : gmap string string)
    (content : string) :
  let w := swap denied dll_path fs in
  fs !! loaded = Some content ->
  happened (retire dll_path) (trace w) = true ->
  happened (promote dll_path) (trace w) = false ->
  files w !! backup = Some content
  /\ files w !! loaded = None
  /\ files w !! staged = fs !! staged
  /\ replaced w = false.
Proof.
  intros w Hfs Hretired Hnever. subst w.
  destruct (swap_phase fs) as [? ? ? H ?|c H0 H1 H2 H3 H4 ? ?|c ? ? ? ? H ?];
    try congruence.
  repeat split; congruence.
Qed.

(** C4.  No call of the loop removes or overwrites the module at the
    loaded path unless that module is at the backup path afterwards:
    every call that finds a module at the loaded path leaves it there or
    leaves it at the backup path, and no rename lands on an existing
    file.  The calls in the trace are the calls the file system made,
    each starting from the files the one before left. *)
Theorem backup_before_retire (fs : gmap string string) :
  let w := swap denied dll_path fs in
  Forall (step_keeps_module loaded backup) (trace w)
  /\ Forall step_overwrites_nothing (trace w)
  /\ replays fs (trace w) (files w).
Proof.
  split; [apply swap_keeps_module|].
  split; [apply swap_overwrites_nothing | apply swap_replays].
Qed.



(** *** Files the swap does not own *)

Lemma body_frame (file : string) (content : option string) a w :
  file <> loaded -> file <> staged -> file <> backup ->
  files w !! file = content /\ Forall (step_leaves file content) (trace w) ->
  let w' := snd (attempt_body denied dll_path a w) in
  files w' !! file = content /\ Forall (step_leaves file content) (trace w').
Proof.
  destruct w as [fs n tr lg rp ar]. simpl. intros Hl Hs Hb [Hfile Hall].
  exec.
  all: split;
    [ cbn [files];
      repeat first [ rewrite lookup_insert_ne by congruence
                   | rewrite lookup_delete_ne by congruence ];
      first [exact Hfile | reflexivity] |].
  all: cbn [trace]; repeat (apply Forall_app; split); try exact Hall.
  all: apply Forall_singleton; cbn [step_leaves post]; try exact I.
  all: repeat first [ rewrite lookup_insert_ne by congruence
                   | rewrite lookup_delete_ne by congruence ];
    first [exact Hfile | reflexivity].
Qed.

(** X1.  The swap of one DLL reads and writes three paths only: any
    other file holds at the end what it held at the start, and no call
    of the loop changes it on the way. *)
Theorem swap_touches_three_paths_only (fs : gmap string string) (file : string) :
  file <> loaded -> file <> staged -> file <> backup ->
  let w := swap denied dll_path fs in
  files w !! file = fs !! file
  /\ Forall (step_leaves file (fs !! file)) (trace w).
Proof.
  intros Hl Hs Hb.
  apply (swap_preserves
           (fun w => files w !! file = fs !! file
                     /\ Forall (step_leaves file (fs !! file)) (trace w))).
  - intros a w Hw. now apply body_frame.
  - auto.
  - auto.
  - split; [reflexivity | constructor].
Qed.

(** *** A lock that is released in time *)

Lemma body_progress (content : string) a w :
  (forall n, max_retries - 1 <= n -> denied n = false) ->
  a <= os_calls w ->
  files w !! staged = Some content ->
  replaced w = false ->
  let r := attempt_body denied dll_path a w in
  (fst r = Done Continue
   /\ a < max_retries - 1
   /\ S a <= os_calls (snd r)
   /\ files (snd r) !! staged = Some content
   /\ replaced (snd r) = false)
  \/ (fst r = Done Break /\ replaced (snd r) = true).
Proof.
  destruct w as [fs n tr lg rp ar]. simpl. intros Hfree Hcalls Hstaged ->.
  exec.
  all: try match goal with
           | H : denied ?k = true |- _ =>
               rewrite Hfree in H by (unfold max_retries in *; simpl; lia);
               discriminate H
           end.
  all: try congruence.
  all: first
         [ right; split; reflexivity
         | left; split; [reflexivity|]; split; [assumption|];
           split; [cbn [os_calls]; lia|];
           split; [lookups; rewrite_lookups; congruence | reflexivity] ].
Qed.

Lemma loop_progress (content : string) k : forall a w,
  (forall n, max_retries - 1 <= n -> denied n = false) ->
  a + S k = max_retries ->
  a <= os_calls w ->
  files w !! staged = Some content ->
  replaced w = false ->
  replaced (snd (retry_loop denied dll_path (seq a (S k)) w)) = true.
Proof.
  induction k as [|k IH]; intros a w Hfree Hk Hcalls Hstaged Hrep;
    cbn [seq retry_loop]; unfold bind;
    destruct (body_progress content a w Hfree Hcalls Hstaged Hrep)
      as [(Hf & Hlt & Hcalls' & Hstaged' & Hrep')|(Hf & Hdone)];
    destruct (attempt_body denied dll_path a w) as [o w1]; simpl in *; subst o;
    try exact Hdone.
  - unfold max_retries in *. lia.
  - apply (IH (S a) w1 Hfree); [lia | exact Hcalls' | exact Hstaged' | exact Hrep'].
Qed.

(** X2.  When the environment lets every call from the fifteenth on
    through (the game has released the DLL by then) and the new DLL
    exists, the swap commits: it is marked [replaced], the loaded path
    holds the new DLL and the staging path is gone. *)
Theorem released_lock_commits (fs : gmap string string) (content : string) :
  (forall n, max_retries - 1 <= n -> denied n = false) ->
  fs !! staged = Some content ->
  let w := swap denied dll_path fs in
  replaced w = true
  /\ files w !! loaded = Some content
  /\ files w !! staged = None.
Proof.
  intros Hfree Hstaged w.
  assert (Hrep : replaced w = true).
  { subst w. unfold swap, replace_dll, bind, modify.
    pose proof (loop_progress content 14 0 (assign_replaced false (start fs))
                  Hfree eq_refl (Nat.le_refl 0) Hstaged eq_refl) as Hloop.
    change (seq 0 15) with (seq 0 max_retries) in Hloop.
    destruct (retry_loop denied dll_path (seq 0 max_retries) _) as [[[]|] w];
      simpl in *; rewrite Hloop; simpl; first [exact Hloop | reflexivity]. }
  split; [exact Hrep|]. subst w.
  destruct (swap_phase fs) as [? ? H|c ? ? ? ? H|c H0 H1 H2 H3 H4 H5];
    try congruence.
  split; [congruence | exact H1].
Qed.

(** *** No lock at all *)

Lemma body_unobstructed (content : string) a w :
  (forall n, denied n = false) ->
  files w !! staged = Some content ->
  let r := attempt_body denied dll_path a w in
  fst r = Done Break
  /\ replaced (snd r) = true
  /\ files (snd r) !! loaded = Some content
  /\ files (snd r) !! staged = None
  /\ files (snd r) !! backup = None
  /\ schedule (trace (snd r)) = schedule (trace w) ++ [EvAttempt a].
Proof.
  destruct w as [fs n tr lg rp ar]. simpl. intros Hfree Hstaged.
  exec.
  all: try match goal with
           | H : denied ?k = true |- _ => rewrite Hfree in H; discriminate H
           end.
  all: try congruence.
  all: split; [reflexivity|]; split; [reflexivity|].
  all: repeat (split; [lookups; rewrite_lookups; congruence|]).
  all: cbn [trace]; rewrite ?schedule_app; cbn; rewrite <- ?app_assoc;
    rewrite ?app_nil_r; reflexivity.
Qed.

(** X3.  When nothing is refused and the new DLL exists, the swap
    commits in its first attempt without a backoff sleep: the loaded path
    holds the new DLL, and neither the staging nor the backup path is
    left behind. *)
Theorem unobstructed_swap_commits_at_once (fs : gmap string string)
    (content : string) :
  (forall n, denied n = false) ->
  fs !! staged = Some content ->
  let w := swap denied dll_path fs in
  replaced w = true
  /\ files w !! loaded = Some content
  /\ files w !! staged = None
  /\ files w !! backup = None
  /\ schedule (trace w) = [EvAttempt 0].
Proof.
  intros Hfree Hstaged w. subst w.
  unfold swap, replace_dll, bind, modify.
  change (seq 0 max_retries) with (0 :: seq 1 14). cbn [retry_loop]. unfold bind.
  destruct (body_unobstructed content 0 (assign_replaced false (start fs))
              Hfree Hstaged) as (Hf & Hrep & Hl & Hs & Hb & Hsched).
  destruct (attempt_body denied dll_path 0 _) as [o w1]. simpl in *. subst o.
  unfold ret. simpl. rewrite Hrep. simpl. auto.
Qed.

(** *** No new DLL *)

Lemma body_retires_without_artifact (content : string) a w :
  (forall n, denied n = false) ->
  files w !! staged = None ->
  files w !! loaded = Some content ->
  let r := attempt_body denied dll_path a w in
  fst r = Done Break
  /\ files (snd r) !! loaded = None
  /\ files (snd r) !! backup = Some content
  /\ attempts (trace (snd r)) = attempts (trace w) ++ [a].
Proof.
  destruct w as [fs n tr lg rp ar]. simpl. intros Hfree Hstaged Hloaded.
  exec.
  all: try match goal with
           | H : denied ?k = true |- _ => rewrite Hfree in H; discriminate H
           end.
  all: try congruence.
  all: split; [reflexivity|].
  all: repeat (split; [lookups; rewrite_lookups; congruence|]).
  all: cbn [trace]; rewrite ?attempts_app; cbn [attempts flat_map app];
    rewrite ?app_nil_r; reflexivity.
Qed.

(** X4.  Without a new DLL at the staging path the swap never commits
    and never renames anything onto the loaded path: the old DLL ends at
    the loaded path or at the backup path.  When nothing is refused it
    ends at the backup path, after a single attempt: the loaded path is
    left empty. *)
Theorem swap_without_artifact (fs : gmap string string) :
  fs !! staged = None ->
  let w := swap denied dll_path fs in
  replaced w = false
  /\ happened (promote dll_path) (trace w) = false
  /\ files w !! staged = None
  /\ (files w !! loaded = fs !! loaded
      \/ (files w !! loaded = None /\ files w !! backup = fs !! loaded))
  /\ ((forall n, denied n = false) -> is_Some (fs !! loaded) ->
      files w !! loaded = None
      /\ files w !! backup = fs !! loaded
      /\ attempts (trace w) = [0]).
Proof.
  intros Hstaged w.
  assert (Hphase : replaced w = false
                   /\ happened (promote dll_path) (trace w) = false
                   /\ files w !! staged = None
                   /\ (files w !! loaded = fs !! loaded
                       \/ (files w !! loaded = None
                           /\ files w !! backup = fs !! loaded))).
  { subst w.
    destruct (swap_phase fs) as [H1 H2 H3 H4 H5|c H1 H2 H3 H4 H5 H6 H7|c H0 H1 H2 H3 H4 H5];
      try congruence.
    - repeat split; try congruence. now left.
    - repeat split; try congruence. right. split; congruence. }
  destruct Hphase as (H1 & H2 & H3 & H4).
  repeat (split; [assumption|]).
  intros Hfree [content Hloaded]. subst w.
  unfold swap, replace_dll, bind, modify.
  change (seq 0 max_retries) with (0 :: seq 1 14). cbn [retry_loop]. unfold bind.
  destruct (body_retires_without_artifact content 0 (assign_replaced false (start fs))
              Hfree Hstaged Hloaded) as (Hf & Hl & Hb & Hatt).
  destruct (attempt_body denied dll_path 0 _) as [o w1]. simpl in *. subst o.
  unfold ret. simpl. rewrite Hloaded.
  destruct (replaced w1); simpl; auto.
Qed.

(** *** The time spent waiting *)

Lemma backoff_total_app t1 t2 :
  (backoff_total (t1 ++ t2) == backoff_total t1 + backoff_total t2)%Q.
Proof.
  induction t1 as [|e t1 IH]; simpl.
  - now rewrite Qplus_0_l.
  - destruct e as [a|s|site a d]; try exact IH.
    destruct (is_backoff site); [|exact IH].
    rewrite IH. apply Qplus_assoc.
Qed.







(** *** The new DLL is not lost *)

(** X29.  However the swap ends, the new DLL is kept: when the swap
    is marked [replaced] it is at the loaded path and the staging path
    is gone, and otherwise it is still at the staging path, whatever
    the environment refused. *)
Theorem new_dll_is_never_lost (fs : gmap string string) (content : string) :
  fs !! staged = Some content ->
  let w := swap denied dll_path fs in
  if replaced w
  then files w !! loaded = Some content /\ files w !! staged = None
  else files w !! staged = Some content.
Proof.
  intros Hstaged w. subst w.
  destruct (swap_phase fs) as [H1 H2 H3 H4 H5|c H1 H2 H3 H4 H5 H6 H7|c H0 H1 H2 H3 H4 H5].
  - rewrite H3. congruence.
  - rewrite H5. congruence.
  - rewrite H3. split; congruence.
Qed.

End SwapFacts.

(** *** Concrete runs of the swap *)

Section SwapRuns.
Import Swap.

(** The game releases the DLL after three refused calls: the swap
    commits on the fourth attempt, after sleeps of 1.0, 1.2 and 1.4
    seconds, and the old backup is cleaned up. *)
Example locked_three_times_then_commits :
  let w := swap (locked_first 3) "proj/spin.dll" demo_files in
  replaced w = true
  /\ map_to_list (files w) = [("proj/spin.dll", "v2")]
  /\ schedule (trace w)
     = [EvAttempt 0; EvSleep LockedBackoff 0 1.0;
        EvAttempt 1; EvSleep LockedBackoff 1 1.2;
        EvAttempt 2; EvSleep LockedBackoff 2 1.4;
        EvAttempt 3].
Proof. vm_compute. repeat split. Qed.

Lemma commit_invariant_witness :
  let w := swap (locked_first 3) "proj/spin.dll" demo_files in
  replaced w = true
  /\ happened (promote "proj/spin.dll") (trace w) = true
  /\ files w !! "proj/spin.dll.new" = None
  /\ is_Some (files w !! "proj/spin.dll")
  /\ files w !! "proj/spin.dll" = demo_files !! "proj/spin.dll.new".
Proof.
  assert (H : replaced (swap (locked_first 3) "proj/spin.dll" demo_files) = true)
    by (vm_compute; reflexivity).
  split; [exact H|].
  exact (commit_invariant (locked_first 3) "proj/spin.dll" demo_files H).
Defined.

Lemma abandon_leaves_loaded_untouched_witness :
  let w := swap always_locked "proj/spin.dll" demo_files in
  demo_files !! "proj/spin.dll" = Some "v1"
  /\ happened (retire "proj/spin.dll") (trace w) = false
  /\ files w !! "proj/spin.dll" = Some "v1"
  /\ Forall (step_leaves "proj/spin.dll" (Some "v1")) (trace w)
  /\ attempts (trace w) = seq 0 max_retries
  /\ replaced w = false.
Proof.
  assert (Hfs : demo_files !! "proj/spin.dll" = Some "v1")
    by (vm_compute; reflexivity).
  assert (Hnever : happened (retire "proj/spin.dll")
                     (trace (swap always_locked "proj/spin.dll" demo_files)) = false)
    by (vm_compute; reflexivity).
  split; [exact Hfs|]. split; [exact Hnever|].
  exact (abandon_leaves_loaded_untouched always_locked "proj/spin.dll"
           demo_files "v1" Hfs Hnever).
Defined.

Lemma abandoned_swap_recoverable_witness :
  let w := swap (locked_after 2) "proj/spin.dll" demo_files in
  attempts (trace w) = seq 0 15
  /\ happened (retire "proj/spin.dll") (trace w) = true
  /\ happened (promote "proj/spin.dll") (trace w) = false
  /\ files w !! "proj/spin.dll.old" = Some "v1"
  /\ files w !! "proj/spin.dll" = None
  /\ files w !! "proj/spin.dll.new" = demo_files !! "proj/spin.dll.new"
  /\ replaced w = false.
Proof.
  assert (Hfs : demo_files !! "proj/spin.dll" = Some "v1")
    by (vm_compute; reflexivity).
  assert (Hretired : happened (retire "proj/spin.dll")
                       (trace (swap (locked_after 2) "proj/spin.dll" demo_files)) = true)
    by (vm_compute; reflexivity).
  assert (Hnever : happened (promote "proj/spin.dll")
                     (trace (swap (locked_after 2) "proj/spin.dll" demo_files)) = false)
    by (vm_compute; reflexivity).
  split; [vm_compute; reflexivity|]. split; [exact Hretired|].
  split; [exact Hnever|].
  exact (abandoned_swap_recoverable (locked_after 2) "proj/spin.dll"
           demo_files "v1" Hfs Hretired Hnever).
Defined.



End SwapRuns.

(** ** The text buffer *)

Section BufferFacts.
Import PyStr Buffer.

(** *** Slices of a text *)

Lemma str_take_drop (n : nat) (s : string) : str_take n s +:+ str_drop n s = s.
Proof.
  revert s. induction n as [|n IH]; intros [|c s]; try reflexivity.
  simpl. rewrite append_cons. now rewrite IH.
Qed.

Lemma str_take_length (n : nat) (s : string) :
  n <= String.length s -> String.length (str_take n s) = n.
Proof.
  revert s. induction n as [|n IH]; intros [|c s] H; simpl in *; try lia.
  rewrite IH by lia. reflexivity.
Qed.

Lemma str_take_app (a b : string) : str_take (String.length a) (a +:+ b) = a.
Proof.
  induction a as [|c a IH].
  - now destruct b.
  - rewrite append_cons. simpl. now rewrite IH.
Qed.

Lemma str_drop_app (a b : string) : str_drop (String.length a) (a +:+ b) = b.
Proof.
  induction a as [|c a IH]; [reflexivity|]. rewrite append_cons. exact IH.
Qed.

Lemma append_empty_r (s : string) : s +:+ "" = s.
Proof. induction s as [|c s IH]; [reflexivity|]. now rewrite append_cons, IH. Qed.

Lemma slice_bound_inside (n : nat) (i : Z) :
  (0 <= i <= Z.of_nat n)%Z -> slice_bound n i = Z.to_nat i.
Proof.
  intros H. unfold slice_bound.
  destruct (Z.ltb_spec i 0); [lia|]. f_equal. lia.
Qed.

Lemma str_to_app (a b : string) : str_to (len a) (a +:+ b) = a.
Proof.
  unfold str_to, len. rewrite slice_bound_inside, Nat2Z.id.
  - apply str_take_app.
  - rewrite length_append. lia.
Qed.

Lemma str_from_app (a b : string) : str_from (len a) (a +:+ b) = b.
Proof.
  unfold str_from, len. rewrite slice_bound_inside, Nat2Z.id.
  - apply str_drop_app.
  - rewrite length_append. lia.
Qed.

(** A text is what is before a position in it followed by what is
    after. *)
Lemma str_to_from (i : Z) (s : string) : str_to i s +:+ str_from i s = s.
Proof. apply str_take_drop. Qed.

Lemma len_str_to (i : Z) (s : string) :
  (0 <= i <= len s)%Z -> len (str_to i s) = i.
Proof.
  unfold len, str_to. intros H. rewrite slice_bound_inside by exact H.
  rewrite str_take_length by lia. lia.
Qed.

Lemma len_app (a b : string) : len (a +:+ b) = (len a + len b)%Z.
Proof. unfold len. rewrite length_append. lia. Qed.

(** *** Lines addressed by the cursor *)

Lemma index_of_inside (n : nat) (i : Z) :
  (0 <= i < Z.of_nat n)%Z -> index_of n i = Some (Z.to_nat i).
Proof.
  intros H. unfold index_of.
  destruct (Z.leb_spec 0 i); [|lia]. destruct (Z.ltb_spec i (Z.of_nat n)); [reflexivity|lia].
Qed.

Section Shape.
Variables (before after : list string) (line : string).
Let y : Z := Z.of_nat (length before).

Lemma index_of_middle :
  index_of (length (before ++ line :: after)) y = Some (length before).
Proof.
  subst y. rewrite index_of_inside, Nat2Z.id; [reflexivity|].
  rewrite length_app. simpl. lia.
Qed.

Lemma py_get_middle : py_get (before ++ line :: after) y = Some line.
Proof.
  unfold py_get. rewrite index_of_middle. simpl.
  now rewrite list_lookup_middle.
Qed.

Lemma py_set_middle (v : string) :
  py_set (before ++ line :: after) y v = Some (before ++ v :: after).
Proof.
  unfold py_set. rewrite index_of_middle. simpl. f_equal.
  replace (length before) with (length before + 0) by lia.
  now rewrite insert_app_r.
Qed.

Lemma py_del_middle : py_del (before ++ line :: after) y = Some (before ++ after).
Proof.
  unfold py_del. rewrite index_of_middle. simpl. f_equal.
  now rewrite delete_middle.
Qed.

Lemma py_insert_after (v : string) :
  py_insert (before ++ line :: after) (y + 1) v = before ++ line :: v :: after.
Proof.
  unfold py_insert. subst y.
  rewrite slice_bound_inside by (rewrite length_app; simpl; lia).
  replace (Z.to_nat (Z.of_nat (length before) + 1)) with (length (before ++ [line]))
    by (rewrite length_app; simpl; lia).
  change (before ++ line :: after) with (before ++ [line] ++ after).
  rewrite app_assoc, take_app_length, drop_app_length.
  now rewrite <- app_assoc.
Qed.

End Shape.

(** The cursor is in the text exactly when the buffer splits at it. *)
Lemma cursor_in_text_split (b : buffer) :
  cursor_in_text b <->
  exists before line after,
    lines b = before ++ line :: after
    /\ cursor_y b = Z.of_nat (length before)
    /\ (0 <= cursor_x b <= len line)%Z.
Proof.
  split.
  - intros (line & Hy & Hline & Hx).
    exists (take (Z.to_nat (cursor_y b)) (lines b)), line,
           (drop (S (Z.to_nat (cursor_y b))) (lines b)).
    split; [now rewrite take_drop_middle|]. split; [|exact Hx].
    rewrite length_take. apply lookup_lt_Some in Hline. lia.
  - intros (before & line & after & Hl & Hy & Hx). exists line.
    split; [lia|]. split; [|exact Hx].
    rewrite Hl, Hy, Nat2Z.id. apply list_lookup_middle. reflexivity.
Qed.

(** *** The cursor stays in the text *)

Ltac split_at_cursor b H :=
  apply cursor_in_text_split in H;
  destruct H as (before & line & after & Hlines & Hy & Hx);
  destruct b as [ls x y]; simpl in *; subst ls y.

Lemma insert_at_cursor (text : string) (before after : list string)
    (line : string) (x : Z) :
  _insert text {| lines := before ++ line :: after; cursor_x := x;
                  cursor_y := Z.of_nat (length before) |}
  = Ok {| lines := before ++ (str_to x line +:+ text +:+ str_from x line) :: after;
          cursor_x := x + len text;
          cursor_y := Z.of_nat (length before) |}.
Proof. unfold _insert. simpl. now rewrite py_get_middle, py_set_middle. Qed.

Lemma newline_at_cursor (before after : list string) (line : string) (x : Z) :
  _newline {| lines := before ++ line :: after; cursor_x := x;
              cursor_y := Z.of_nat (length before) |}
  = Ok {| lines := before ++ str_to x line :: str_from x line :: after;
          cursor_x := 0;
          cursor_y := Z.of_nat (length before) + 1 |}.
Proof.
  unfold _newline. simpl. rewrite py_get_middle, py_set_middle.
  now rewrite py_insert_after.
Qed.

Lemma backspace_in_line (before after : list string) (line : string) (x : Z) :
  (0 < x)%Z ->
  _backspace {| lines := before ++ line :: after; cursor_x := x;
                cursor_y := Z.of_nat (length before) |}
  = Ok {| lines := before ++ (str_to (x - 1) line +:+ str_from x line) :: after;
          cursor_x := x - 1;
          cursor_y := Z.of_nat (length before) |}.
Proof.
  intros H. unfold _backspace. simpl.
  destruct (Z.ltb_spec 0 x); [|lia]. now rewrite py_get_middle, py_set_middle.
Qed.

Lemma backspace_joins_lines (before after : list string) (prev cur : string) :
  _backspace {| lines := before ++ prev :: cur :: after; cursor_x := 0;
                cursor_y := Z.of_nat (length before) + 1 |}
  = Ok {| lines := before ++ (prev +:+ cur) :: after;
          cursor_x := len prev;
          cursor_y := Z.of_nat (length before) |}.
Proof.
  unfold _backspace. simpl.
  destruct (Z.ltb_spec 0 (Z.of_nat (length before) + 1)); [|lia].
  replace (Z.of_nat (length before) + 1 - 1)%Z with (Z.of_nat (length before)) by lia.
  rewrite py_get_middle.
  assert (Hsecond : (Z.of_nat (length before) + 1)%Z
                    = Z.of_nat (length (before ++ [prev]))).
  { rewrite length_app. simpl. lia. }
  assert (Hshape : forall v, before ++ v :: cur :: after
                             = (before ++ [v]) ++ cur :: after).
  { intros v. now rewrite <- app_assoc. }
  rewrite (Hshape prev), Hsecond, py_get_middle.
  rewrite <- (Hshape prev), py_set_middle.
  rewrite (Hshape (prev +:+ cur)).
  replace (length (before ++ [prev])) with (length (before ++ [prev +:+ cur]))
    by (rewrite !length_app; reflexivity).
  rewrite py_del_middle. now rewrite <- app_assoc.
Qed.

Lemma backspace_at_origin (ls : list string) :
  _backspace {| lines := ls; cursor_x := 0; cursor_y := 0 |}
  = Ok {| lines := ls; cursor_x := 0; cursor_y := 0 |}.
Proof. reflexivity. Qed.

Lemma insert_returns (text : string) (b : buffer) :
  cursor_in_text b -> exists b', _insert text b = Ok b'.
Proof. intros H. split_at_cursor b H. eexists. apply insert_at_cursor. Qed.

(** X6.  The four editing operations keep the cursor in the text: from
    a buffer whose cursor is on one of its lines, between the start and
    the end of that line, [_insert], [_backspace], [_newline] and
    [move_cursor] return without [IndexError] and leave such a buffer. *)
Theorem edits_keep_cursor_in_text (b : buffer) :
  cursor_in_text b ->
  (forall text, exists b', _insert text b = Ok b' /\ cursor_in_text b')
  /\ (exists b', _backspace b = Ok b' /\ cursor_in_text b')
  /\ (exists b', _newline b = Ok b' /\ cursor_in_text b')
  /\ (forall dx dy, exists b', move_cursor dx dy b = Ok b' /\ cursor_in_text b').
Proof.
  intros H. split_at_cursor b H. repeat split.
  - intros text. eexists. split; [apply insert_at_cursor|].
    apply cursor_in_text_split. eexists before, _, after. simpl.
    split; [reflexivity|]. split; [reflexivity|].
    rewrite !len_app.
    pose proof (len_str_to x line Hx).
    assert (0 <= len (str_from x line))%Z by (unfold len; lia).
    assert (0 <= len text)%Z by (unfold len; lia). lia.
  - destruct (Z.ltb_spec 0 x) as [Hpos|Hzero].
    + eexists. split; [now apply backspace_in_line|].
      apply cursor_in_text_split. eexists before, _, after. simpl.
      split; [reflexivity|]. split; [reflexivity|].
      rewrite len_app. rewrite len_str_to by lia.
      assert (0 <= len (str_from x line))%Z by (unfold len; lia). lia.
    + assert (x = 0%Z) by lia. subst x.
      destruct before as [|first before _] using rev_ind.
      * eexists. split; [apply backspace_at_origin|].
        apply cursor_in_text_split. now exists [], line, after.
      * rewrite length_app. simpl length.
        replace (Z.of_nat (length before + 1)) with (Z.of_nat (length before) + 1)%Z by lia.
        rewrite <- app_assoc. simpl app.
        eexists. split; [apply backspace_joins_lines|].
        apply cursor_in_text_split. eexists before, _, after. simpl.
        split; [reflexivity|]. split; [reflexivity|].
        rewrite len_app. unfold len. lia.
  - eexists. split; [apply newline_at_cursor|].
    apply cursor_in_text_split.
    exists (before ++ [str_to x line]), (str_from x line), after. simpl.
    split; [now rewrite <- app_assoc|]. split.
    + rewrite length_app. simpl. lia.
    + unfold len. lia.
  - intros dx dy. unfold move_cursor. simpl lines.
    set (n := length (before ++ line :: after)).
    assert (Hn : 0 < n) by (subst n; rewrite length_app; simpl; lia).
    set (y' := Z.max 0 (Z.min (Z.of_nat n - 1) (cursor_y {| lines := before ++ line :: after; cursor_x := x; cursor_y := Z.of_nat (length before) |} + dy))).
    assert (Hy' : (0 <= y' < Z.of_nat n)%Z) by (subst y'; lia).
    unfold py_get. rewrite index_of_inside by exact Hy'. simpl.
    destruct (lookup_lt_is_Some_2 (before ++ line :: after) (Z.to_nat y'))
      as [line' Hline']; [fold n; lia|].
    rewrite Hline'. eexists. split; [reflexivity|].
    exists line'. simpl. split; [lia|]. split; [exact Hline'|].
    assert (0 <= len line')%Z by (unfold len; lia). lia.
Qed.

(** *** Undoing what was typed *)

(** X7.  Pressing Return and then Backspace restores the buffer and the
    cursor. *)
Theorem newline_is_undone_by_backspace (b : buffer) :
  cursor_in_text b ->
  and_then (_newline b) _backspace = Ok b.
Proof.
  intros H. split_at_cursor b H.
  rewrite newline_at_cursor. simpl and_then.
  rewrite backspace_joins_lines, str_to_from, len_str_to by exact Hx.
  reflexivity.
Qed.

Lemma insert_empty (b : buffer) :
  cursor_in_text b -> _insert "" b = Ok b.
Proof.
  intros H. split_at_cursor b H.
  rewrite insert_at_cursor. rewrite append_nil, str_to_from.
  unfold len. simpl. now rewrite Z.add_0_r.
Qed.

Lemma backspace_after_insert (text : string) (c : Ascii.ascii) (b : buffer) :
  cursor_in_text b ->
  and_then (_insert (text +:+ String c "") b) _backspace = _insert text b.
Proof.
  intros H. split_at_cursor b H.
  rewrite !insert_at_cursor. simpl and_then.
  assert (Hlen : (0 <= len text)%Z) by (unfold len; lia).
  rewrite backspace_in_line by (rewrite len_app; unfold len at 2; simpl; lia).
  f_equal. f_equal.
  - f_equal. f_equal.
    set (pre := str_to x line). set (post := str_from x line).
    assert (Hpre : len pre = x) by (now apply len_str_to).
    replace (x + len (text +:+ String c "") - 1)%Z with (len (pre +:+ text))
      by (rewrite !len_app; unfold len at 4; simpl; lia).
    replace (x + len (text +:+ String c ""))%Z
      with (len ((pre +:+ text) +:+ String c ""))
      by (rewrite !len_app; lia).
    set (typed := pre +:+ (text +:+ String c "") +:+ post).
    assert (F1 : str_to (len (pre +:+ text)) typed = pre +:+ text).
    { replace typed with ((pre +:+ text) +:+ (String c "" +:+ post))
        by (subst typed; now rewrite !append_assoc).
      apply str_to_app. }
    assert (F2 : str_from (len ((pre +:+ text) +:+ String c "")) typed = post).
    { replace typed with (((pre +:+ text) +:+ String c "") +:+ post)
        by (subst typed; now rewrite !append_assoc).
      apply str_from_app. }
    rewrite F1, F2. now rewrite append_assoc.
  - rewrite len_app. unfold len at 2. simpl. lia.
Qed.

Lemma string_snoc (s : string) :
  s <> "" -> exists t c, s = t +:+ String c "".
Proof.
  induction s as [|c s IH]; [congruence|]. intros _.
  destruct s as [|d s].
  - now exists "", c.
  - destruct IH as (t & e & Ht); [discriminate|].
    exists (String c t), e. now rewrite append_cons, <- Ht.
Qed.

(** X8.  Typing a text and then pressing Backspace once for each of its
    characters restores the buffer and the cursor. *)
Theorem typing_is_undone_by_backspaces (text : string) (b : buffer) :
  cursor_in_text b ->
  and_then (_insert text b) (backspaces (String.length text)) = Ok b.
Proof.
  intros H. remember (String.length text) as n eqn:Hn.
  revert text Hn. induction n as [|n IH]; intros text Hn.
  - destruct text; [|discriminate]. now rewrite insert_empty.
  - destruct (string_snoc text) as (t & c & ->); [now destruct text|].
    rewrite length_append in Hn. simpl in Hn.
    pose proof (backspace_after_insert t c b H) as Hstep.
    destruct (_insert (t +:+ String c "") b) as [b1|b1]; simpl in *.
    + rewrite Hstep. apply IH. lia.
    + destruct (insert_returns t b H) as (b' & Hb'). congruence.
Qed.

(** *** Moving the cursor *)

(** X9.  [move_cursor] brings any cursor, also one outside the text,
    into the text of a buffer that has a line; the lines are not
    changed.  In a buffer without lines it raises [IndexError], after
    setting the row to 0. *)
Theorem move_cursor_clamps (dx dy : Z) (b : buffer) :
  (lines b <> [] ->
   exists b', move_cursor dx dy b = Ok b'
              /\ cursor_in_text b' /\ lines b' = lines b)
  /\ (lines b = [] ->
      move_cursor dx dy b
      = IndexError {| lines := []; cursor_x := cursor_x b; cursor_y := 0 |}).
Proof.
  split.
  - intros Hne. unfold move_cursor. simpl lines.
    set (n := length (lines b)).
    assert (Hn : 0 < n) by (subst n; destruct (lines b); simpl; [congruence|lia]).
    set (y' := Z.max 0 (Z.min (Z.of_nat n - 1) (cursor_y b + dy))).
    assert (Hy' : (0 <= y' < Z.of_nat n)%Z) by (subst y'; lia).
    unfold py_get. rewrite index_of_inside by exact Hy'. simpl.
    destruct (lookup_lt_is_Some_2 (lines b) (Z.to_nat y')) as [line' Hline'];
      [fold n; lia|].
    rewrite Hline'. eexists. split; [reflexivity|]. split; [|reflexivity].
    exists line'. simpl. split; [lia|]. split; [exact Hline'|].
    assert (0 <= len line')%Z by (unfold len; lia). lia.
  - intros Hempty. unfold move_cursor. rewrite Hempty. simpl.
    replace (Z.max 0 (Z.min (Z.of_nat 0 - 1) (cursor_y b + dy))) with 0%Z by lia.
    reflexivity.
Qed.

(** *** The text that is saved *)

Lemma concat_cons (sep x : string) (l : list string) :
  l <> [] -> String.concat sep (x :: l) = x +:+ sep +:+ String.concat sep l.
Proof. now destruct l. Qed.

Lemma concat_snoc_app (sep p t : string) (l : list string) :
  String.concat sep (l ++ [p +:+ t]) = String.concat sep (l ++ [p]) +:+ t.
Proof.
  induction l as [|a l IH]; [reflexivity|].
  rewrite <- !app_comm_cons.
  rewrite !concat_cons by (now destruct l).
  now rewrite IH, !append_assoc.
Qed.

Lemma concat_snoc (sep x : string) (l : list string) :
  l <> [] -> String.concat sep (l ++ [x]) = String.concat sep l +:+ sep +:+ x.
Proof.
  induction l as [|a l IH]; [congruence|]. intros _.
  rewrite <- app_comm_cons, concat_cons by (now destruct l).
  destruct l as [|b l]; [reflexivity|].
  rewrite IH by discriminate.
  rewrite (concat_cons sep a) by discriminate.
  now rewrite !append_assoc.
Qed.

Lemma concat_split (sep p q : string) (l r : list string) :
  String.concat sep (l ++ (p +:+ q) :: r)
  = String.concat sep (l ++ [p]) +:+ String.concat sep (q :: r).
Proof.
  induction l as [|a l IH].
  - destruct r as [|z r]; [reflexivity|].
    simpl app. rewrite !concat_cons by discriminate.
    now rewrite append_assoc.
  - rewrite <- !app_comm_cons.
    rewrite !concat_cons by (now destruct l).
    now rewrite IH, !append_assoc.
Qed.

Lemma text_at_cursor (before after : list string) (line : string) (x : Z) :
  let b := {| lines := before ++ line :: after; cursor_x := x;
              cursor_y := Z.of_nat (length before) |} in
  text_before b = saved_text (before ++ [str_to x line])
  /\ text_after b = saved_text (str_from x line :: after).
Proof.
  unfold text_before, text_after, cursor_line. simpl.
  rewrite Nat2Z.id, list_lookup_middle by reflexivity. simpl.
  rewrite take_app_length.
  change (before ++ line :: after) with (before ++ [line] ++ after).
  rewrite (app_assoc before [line] after).
  replace (S (length before)) with (length (before ++ [line]))
    by (rewrite length_app; simpl; lia).
  now rewrite drop_app_length.
Qed.

Lemma str_to_0 (s : string) : str_to 0 s = "".
Proof. unfold str_to. simpl. now destruct s. Qed.

Lemma str_from_0 (s : string) : str_from 0 s = s.
Proof. unfold str_from. simpl. now destruct s. Qed.

(** X10.  Typing changes the saved text at the cursor and nowhere else:
    the saved text is the text before the cursor followed by the text
    after it; [_insert] appends the typed text to the first and
    [_newline] appends a line feed to it, and both leave the second as
    it was. *)
Theorem typing_changes_the_text_at_the_cursor (b : buffer) :
  cursor_in_text b ->
  saved_text (lines b) = text_before b +:+ text_after b
  /\ (forall text b', _insert text b = Ok b' ->
      text_before b' = text_before b +:+ text /\ text_after b' = text_after b)
  /\ (forall b', _newline b = Ok b' ->
      text_before b' = text_before b +:+ Trigger.newline
      /\ text_after b' = text_after b).
Proof.
  intros H. split_at_cursor b H.
  destruct (text_at_cursor before after line x) as (Hb & Ha).
  cbv zeta in Hb, Ha. rewrite Hb, Ha. split; [|split].
  - unfold saved_text. rewrite <- concat_split. now rewrite str_to_from.
  - intros text b'. rewrite insert_at_cursor. intros [= <-].
    set (pre := str_to x line). set (post := str_from x line).
    destruct (text_at_cursor before after (pre +:+ text +:+ post) (x + len text))
      as (Hb' & Ha').
    cbv zeta in Hb', Ha'. rewrite Hb', Ha'.
    assert (Hlen : (x + len text)%Z = len (pre +:+ text)).
    { rewrite len_app. subst pre. now rewrite len_str_to. }
    rewrite Hlen, <- append_assoc, str_to_app, str_from_app.
    split; [|reflexivity]. apply concat_snoc_app.
  - intros b'. rewrite newline_at_cursor. intros [= <-].
    set (pre := str_to x line). set (post := str_from x line).
    pose proof (text_at_cursor (before ++ [pre]) after post 0) as Hat.
    cbv zeta in Hat. rewrite <- app_assoc in Hat. simpl app in Hat.
    replace (Z.of_nat (length (before ++ [pre])))
      with (Z.of_nat (length before) + 1)%Z in Hat
      by (rewrite length_app; simpl; lia).
    destruct Hat as (Hb' & Ha'). rewrite Hb', Ha', str_to_0, str_from_0.
    split; [|reflexivity].
    unfold saved_text. rewrite concat_snoc by (now destruct before).
    now rewrite append_empty_r.
Qed.

Lemma str_take_S (n : nat) (s : string) :
  n < String.length s ->
  exists c, str_take (S n) s = str_take n s +:+ String c "".
Proof.
  revert s. induction n as [|n IH]; intros [|c s] H; simpl in H; try lia.
  - now exists c.
  - destruct (IH s) as [d Hd]; [lia|]. exists d.
    change (str_take (S (S n)) (String c s)) with (String c (str_take (S n) s)).
    now rewrite Hd.
Qed.

(** X11.  Backspace deletes the character before the cursor from the
    saved text (the line feed when the cursor is at the start of a
    line) and nothing else; at the start of the text it does nothing. *)
Theorem backspace_deletes_one_character (b : buffer) :
  cursor_in_text b ->
  exists b',
    _backspace b = Ok b'
    /\ text_after b' = text_after b
    /\ ((cursor_x b = 0%Z /\ cursor_y b = 0%Z /\ b' = b)
        \/ exists c, text_before b = text_before b' +:+ String c "").
Proof.
  intros H. split_at_cursor b H.
  destruct (text_at_cursor before after line x) as (Hb & Ha).
  cbv zeta in Hb, Ha. rewrite Hb, Ha.
  destruct (Z.ltb_spec 0 x) as [Hpos|Hzero].
  - eexists. split; [now apply backspace_in_line|].
    set (pre := str_to (x - 1) line). set (post := str_from x line).
    assert (Hpre : len pre = (x - 1)%Z) by (subst pre; apply len_str_to; lia).
    destruct (text_at_cursor before after (pre +:+ post) (x - 1)) as (Hb' & Ha').
    cbv zeta in Hb', Ha'. rewrite Hb', Ha'.
    rewrite <- Hpre, str_to_app, str_from_app. split; [reflexivity|]. right.
    unfold len in Hx.
    destruct (str_take_S (Z.to_nat (x - 1)) line) as [c Hc]; [lia|].
    exists c. unfold saved_text. rewrite <- concat_snoc_app. f_equal. f_equal.
    f_equal. subst pre. unfold str_to.
    rewrite !slice_bound_inside by lia.
    replace (Z.to_nat x) with (S (Z.to_nat (x - 1))) by lia. exact Hc.
  - assert (x = 0%Z) by lia. subst x.
    destruct before as [|prev before _] using rev_ind.
    + eexists. split; [apply backspace_at_origin|]. simpl.
      split; [exact Ha|]. now left.
    + rewrite length_app. simpl length.
      replace (Z.of_nat (length before + 1)) with (Z.of_nat (length before) + 1)%Z
        by lia.
      rewrite <- !app_assoc. simpl app.
      eexists. split; [apply backspace_joins_lines|].
      destruct (text_at_cursor before after (prev +:+ line) (len prev)) as (Hb' & Ha').
      cbv zeta in Hb', Ha'. rewrite Hb', Ha'.
      rewrite str_to_app, str_from_app, str_to_0, str_from_0.
      split; [reflexivity|]. right. exists (Ascii.ascii_of_nat 10).
      unfold saved_text.
      change (before ++ [prev; ""]) with (before ++ [prev] ++ [""]).
      rewrite app_assoc, concat_snoc by (now destruct before).
      reflexivity.
Qed.

End BufferFacts.

(** ** Saving and loading *)

Section FileFacts.
Import PyStr Buffer.

Lemma splitlines_from_one_line (l rest cur : string) :
  one_line l = true ->
  splitlines_from cur (l +:+ rest) = splitlines_from (cur +:+ l) rest.
Proof.
  revert cur. induction l as [|c l IH]; intros cur H.
  - now rewrite append_nil, append_empty_r.
  - simpl in H. apply andb_prop in H as [Hc Hl].
    apply negb_true_iff in Hc.
    rewrite append_cons. simpl. rewrite Hc, IH by exact Hl.
    f_equal. now rewrite append_assoc, append_cons, append_nil.
Qed.

Lemma splitlines_from_newline (cur rest : string) :
  splitlines_from cur (Trigger.newline +:+ rest) = cur :: splitlines_from "" rest.
Proof.
  unfold Trigger.newline. rewrite append_cons, append_nil.
  destruct rest as [|c rest]; reflexivity.
Qed.

Lemma splitlines_from_nonempty (cur s : string) :
  cur <> "" -> splitlines_from cur s <> [].
Proof.
  revert cur. induction s as [|c s IH]; intros cur H; simpl.
  - destruct (String.eqb_spec cur ""); congruence.
  - destruct (is_linebreak c).
    + destruct s as [|c' s]; [discriminate|].
      destruct (is_cr c && is_lf c')%bool; discriminate.
    + apply IH. destruct cur; discriminate.
Qed.

Lemma splitlines_nil (s : string) : splitlines s = [] <-> s = "".
Proof.
  split; [|now intros ->].
  destruct s as [|c s]; [reflexivity|]. unfold splitlines. simpl.
  destruct (is_linebreak c).
  - destruct s as [|c' s]; [discriminate|].
    destruct (is_cr c && is_lf c')%bool; discriminate.
  - intros H. now apply splitlines_from_nonempty in H.
Qed.

Lemma splitlines_saved_text (ls : list string) :
  Forall (fun l => one_line l = true) ls ->
  splitlines (saved_text ls) = loaded_back ls.
Proof.
  induction 1 as [|l ls Hl Hls IH]; [reflexivity|].
  destruct ls as [|l' ls].
  - unfold saved_text, splitlines. simpl.
    rewrite <- (append_empty_r l) at 1.
    rewrite splitlines_from_one_line, append_nil by exact Hl. reflexivity.
  - unfold saved_text in *. rewrite concat_cons by discriminate.
    unfold splitlines in *.
    rewrite splitlines_from_one_line, append_nil by exact Hl.
    rewrite splitlines_from_newline, IH. reflexivity.
Qed.

Lemma loaded_back_same (ls : list string) :
  last ls <> Some "" -> loaded_back ls = ls.
Proof.
  induction ls as [|l ls IH]; [reflexivity|]. intros H.
  destruct ls as [|l' ls].
  - simpl. destruct (String.eqb_spec l ""); [subst; now destruct H|reflexivity].
  - change (loaded_back (l :: l' :: ls)) with (l :: loaded_back (l' :: ls)).
    f_equal. apply IH. exact H.
Qed.

Lemma loaded_back_snoc (ls : list string) : loaded_back (ls ++ [""]) = ls.
Proof.
  induction ls as [|l ls IH]; [reflexivity|].
  rewrite <- app_comm_cons.
  destruct ls as [|l' ls]; [reflexivity|].
  change (loaded_back (l :: (l' :: ls) ++ [""]))
    with (l :: loaded_back ((l' :: ls) ++ [""])).
  now rewrite IH.
Qed.

Variable basename : string -> string.

(** X12.  What [save] writes, [_load_file] reads back: when no line of
    the buffer holds a line-break character and the last line is not
    empty, loading the saved file gives the lines of the buffer. *)
Theorem saved_file_loads_back (now : Q) (files files' : gmap string string)
    (e e' : Trigger.editor) (fired : bool) :
  Trigger.save basename now true files e = Some (files', e', fired) ->
  Forall (fun l => one_line l = true) (Trigger.lines e) ->
  last (Trigger.lines e) <> Some "" ->
  _load_file files' (Trigger.save_path_of e) = Trigger.lines e.
Proof.
  intros Hsave Hlines Hlast.
  assert (Hfile : files' !! Trigger.save_path_of e
                  = Some (saved_text (Trigger.lines e))).
  { unfold Trigger.save in Hsave. cbv zeta in Hsave. simpl negb in Hsave.
    cbv iota in Hsave.
    repeat match type of Hsave with
           | (if ?c then _ else _) = _ => destruct c
           end;
    injection Hsave as <- _ _; apply lookup_insert_eq. }
  unfold _load_file. rewrite Hfile, splitlines_saved_text by exact Hlines.
  now apply loaded_back_same.
Qed.

(** X13.  An empty last line is lost by saving and loading: a buffer
    that ends with an empty line loads back without it.  So a buffer
    that is one empty line loads back with no line at all. *)
Theorem empty_last_line_is_lost (now : Q) (files files' : gmap string string)
    (e e' : Trigger.editor) (fired : bool) (ls : list string) :
  Trigger.save basename now true files e = Some (files', e', fired) ->
  Trigger.lines e = ls ++ [""] ->
  Forall (fun l => one_line l = true) ls ->
  _load_file files' (Trigger.save_path_of e) = ls.
Proof.
  intros Hsave Hshape Hlines.
  assert (Hfile : files' !! Trigger.save_path_of e
                  = Some (saved_text (Trigger.lines e))).
  { unfold Trigger.save in Hsave. cbv zeta in Hsave. simpl negb in Hsave.
    cbv iota in Hsave.
    repeat match type of Hsave with
           | (if ?c then _ else _) = _ => destruct c
           end;
    injection Hsave as <- _ _; apply lookup_insert_eq. }
  unfold _load_file. rewrite Hfile, Hshape, splitlines_saved_text.
  - apply loaded_back_snoc.
  - apply Forall_app. split; [exact Hlines|]. now constructor.
Qed.

(** X14.  A buffer without lines: [_load_file] gives no line at all
    exactly for a file that exists and is empty (a missing file gives
    one empty line), and in a buffer without lines typing a text or a
    new line raises [IndexError], wherever the cursor is. *)
Theorem empty_file_gives_no_line (files : gmap string string) (path : string) :
  (_load_file files path = [] <-> files !! path = Some "")
  /\ forall text x y,
       let b := {| lines := []; cursor_x := x; cursor_y := y |} in
       _insert text b = IndexError b /\ _newline b = IndexError b.
Proof.
  split.
  - unfold _load_file. destruct (files !! path) as [content|].
    + rewrite splitlines_nil. split; congruence.
    + split; discriminate.
  - intros text x y.
    assert (Hget : py_get [] y = None).
    { unfold py_get. now destruct (index_of (length []) y). }
    unfold _insert, _newline. simpl. now rewrite Hget.
Qed.

End FileFacts.

(** ** Program output in the terminal *)

Section TerminalOutputFacts.
Import PyStr Terminal.

Lemma keep_last_snoc (n : nat) (l : list string) (x : string) :
  length l <= n ->
  (if Nat.ltb n (length (l ++ [x])) then pop_front (l ++ [x]) else l ++ [x])
  = keep_last n (l ++ [x]).
Proof.
  intros H. unfold keep_last, pop_front. rewrite length_app. simpl length.
  destruct (Nat.ltb_spec n (length l + 1)).
  - replace (length l + 1 - n) with 1 by lia. now destruct (l ++ [x]).
  - replace (length l + 1 - n) with 0 by lia. reflexivity.
Qed.

Lemma keep_last_length (n : nat) (l : list string) :
  length (keep_last n l) <= n.
Proof. unfold keep_last. rewrite length_drop. lia. Qed.

Lemma keep_last_app (n : nat) (a b : list string) :
  keep_last n (keep_last n a ++ b) = keep_last n (a ++ b).
Proof.
  unfold keep_last. rewrite !length_app, length_drop.
  destruct (Nat.le_gt_cases (length a) n) as [Hle|Hgt].
  - replace (length a - n) with 0 by lia. simpl. do 2 f_equal. lia.
  - replace (length a - (length a - n) + length b - n) with (length b) by lia.
    replace (length a + length b - n) with ((length a - n) + length b) by lia.
    rewrite <- drop_drop. f_equal.
    rewrite drop_app_le by lia. reflexivity.
Qed.

Lemma keep_last_all (n : nat) (l : list string) :
  length l <= n -> keep_last n l = l.
Proof. intros H. unfold keep_last. now replace (length l - n) with 0 by lia. Qed.

Lemma add_terminal_line_keeps_last (line_height : Z) (line : string)
    (t : terminal) :
  length (terminal_lines t) <= TERMINAL_MAX_LINES ->
  terminal_lines (_add_terminal_line line_height line t)
  = keep_last TERMINAL_MAX_LINES (terminal_lines t ++ [line]).
Proof. intros H. unfold _add_terminal_line. simpl. now apply keep_last_snoc. Qed.

Lemma rstrip_newlines_empty (s : string) :
  nonempty s = false -> nonempty (rstrip_newlines s) = false.
Proof. now destruct s. Qed.

(** The lines of the output that reach the terminal. *)
Lemma show_line_lines (line_height : Z) (line : string) (t : terminal) :
  length (terminal_lines t) <= TERMINAL_MAX_LINES ->
  terminal_lines (show_line line_height line t)
  = keep_last TERMINAL_MAX_LINES
      (terminal_lines t ++ List.filter nonempty [rstrip_newlines line]).
Proof.
  intros H. unfold show_line. simpl List.filter.
  destruct (nonempty line) eqn:E.
  - destruct (nonempty (rstrip_newlines line)).
    + now apply add_terminal_line_keeps_last.
    + now rewrite app_nil_r, keep_last_all.
  - rewrite rstrip_newlines_empty by exact E.
    now rewrite app_nil_r, keep_last_all.
Qed.

(** X15.  The terminal shows the latest output: after the lines a
    program wrote are read, the terminal holds the last 500 of the
    lines it held before followed by the output lines, each without the
    line feeds and carriage returns at its end, and without those that
    are empty then. *)
Theorem terminal_shows_latest_output (line_height : Z) (output : list string)
    (t : terminal) :
  length (terminal_lines t) <= TERMINAL_MAX_LINES ->
  let shown := List.filter nonempty (map rstrip_newlines output) in
  let t' := show_output line_height output t in
  terminal_lines t' = keep_last 500 (terminal_lines t ++ shown)
  /\ length (terminal_lines t') <= 500.
Proof.
  cbv zeta. revert t.
  assert (Hlines : forall t, length (terminal_lines t) <= TERMINAL_MAX_LINES ->
            terminal_lines (show_output line_height output t)
            = keep_last 500 (terminal_lines t
                             ++ List.filter nonempty (map rstrip_newlines output))).
  { induction output as [|line rest IH]; intros t H.
    - simpl. now rewrite app_nil_r, keep_last_all.
    - change (show_output line_height (line :: rest) t)
        with (show_output line_height rest (show_line line_height line t)).
      pose proof (show_line_lines line_height line t H) as Hstep.
      rewrite IH by (rewrite Hstep; apply keep_last_length).
      rewrite Hstep. change TERMINAL_MAX_LINES with 500.
      rewrite keep_last_app, <- app_assoc. do 2 f_equal.
      simpl. now destruct (nonempty (rstrip_newlines line)). }
  intros t H. split; [now apply Hlines|].
  rewrite Hlines by exact H. apply keep_last_length.
Qed.

End TerminalOutputFacts.

(** ** The two triggers together *)

Section TriggerSpacing.
Import PyStr Trigger.

Variable abspath : string -> string.
Variable basename : string -> string.

Local Abbreviation save := (save basename).
Local Abbreviation on_modified := (on_modified abspath).
Local Abbreviation step := (step abspath basename).
Local Abbreviation run := (run abspath basename).
Local Abbreviation trigger_times := (trigger_times abspath basename).

Lemma endswith_nonempty (s suffix : string) :
  suffix <> "" -> endswith s suffix = true -> nonempty s = true.
Proof.
  intros Hsuffix H. destruct s; [|reflexivity].
  destruct suffix; [congruence|]. discriminate H.
Qed.

Lemma has_hot_systems_after_save (fs : gmap string string) (e : editor)
    (st text : string) :
  view_mode e = "hd" ->
  has_hot_systems (<[save_path_of e := text]> fs) (set_status st e)
  = (endswith (original_hd_path e) ".hd" && contains "@hot" text)%bool.
Proof.
  intros Hview. unfold has_hot_systems, save_path_of. rewrite Hview. simpl.
  destruct (endswith (original_hd_path e) ".hd") eqn:Hhd.
  - rewrite (endswith_nonempty _ ".hd") by (discriminate || exact Hhd).
    simpl. now rewrite lookup_insert_eq.
  - now rewrite orb_true_r.
Qed.

(** X16.  When a save starts a hotload: exactly when the editor shows
    the project source (view ["hd"]), auto hotload is on, the project
    file's name ends with [".hd"], the text being saved (not what the
    file held before) contains ["@hot"], no build flag is set and the
    clock is more than 2.0 seconds past the last hotload. *)
Theorem save_triggers_on_saved_text (now : Q) (write_ok : bool)
    (fs fs' : gmap string string) (e e' : editor) (fired : bool) :
  save now write_ok fs e = Some (fs', e', fired) ->
  fired = true <->
  (view_mode e = "hd"
   /\ auto_hotload_enabled e = true
   /\ endswith (original_hd_path e) ".hd" = true
   /\ contains "@hot" (Buffer.saved_text (lines e)) = true
   /\ build_flags_set e = false
   /\ (2 < now - last_hotload_time e)%Q).
Proof.
  unfold save, build_flags_set, Buffer.saved_text.
  destruct write_ok; cbn [negb]; [|discriminate].
  cbn [set_status view_mode auto_hotload_enabled _building _just_built
       last_hotload_time].
  destruct (String.eqb_spec (view_mode e) "hd") as [Hview|Hview].
  - rewrite has_hot_systems_after_save by exact Hview.
    destruct (auto_hotload_enabled e), (endswith (original_hd_path e) ".hd"),
      (contains "@hot" (String.concat newline (lines e))),
      (_building e), (_just_built e); cbn [andb negb orb];
      try (intros [= _ _ <-]; split; [discriminate | intros (_ & ? & ? & ? & ? & _); discriminate]).
    destruct (Qgtb (now - last_hotload_time e) 2) eqn:Hq; intros [= _ _ <-].
    + apply Qgtb_true in Hq. now repeat split.
    + apply Qgtb_false in Hq. split; [discriminate|].
      intros (_ & _ & _ & _ & _ & Hlt). exfalso.
      exact (Qlt_not_le _ _ Hlt Hq).
  - cbn [andb]. intros [= _ _ <-]. split; [discriminate|].
    intros (Hv & _). contradiction.
Qed.

(** An action either starts no hotload and leaves the time of the
    last hotload alone, or it starts one, more than 2.0 seconds after
    the last, and records its own clock reading. *)
Lemma step_fires_or_not (a : action) (s : session) :
  (hotloads_started (step a s) = hotloads_started s
   /\ last_hotload_time (ed (step a s)) = last_hotload_time (ed s))
  \/ (exists t, action_time a = Some t
       /\ hotloads_started (step a s) = S (hotloads_started s)
       /\ last_hotload_time (ed (step a s)) = t
       /\ (2 < t - last_hotload_time (ed s))%Q).
Proof.
  destruct a as [now write_ok|event now|file content]; simpl.
  - unfold save. destruct write_ok; cbn [negb]; [|now left].
    cbn [set_status view_mode auto_hotload_enabled _building _just_built
         last_hotload_time].
    match goal with |- context [if ?c then _ else _] => destruct c end;
      [|now left].
    destruct (Qgtb (now - last_hotload_time (ed s)) 2) eqn:Hq; [|now left].
    apply Qgtb_true in Hq. right. exists now. now repeat split.
  - unfold on_modified.
    repeat match goal with
           | |- context [if Qgtb ?a ?b then _ else _] =>
               let Hq := fresh "Hq" in destruct (Qgtb a b) eqn:Hq
           | |- context [if ?c then _ else _] => destruct c
           end; try (now left).
    right. exists now. simpl.
    match goal with H : Qgtb (now - last_hotload_time _) 2 = true |- _ =>
      apply Qgtb_true in H end.
    now repeat split.
  - now left.
Qed.

(** X17.  The two triggers together keep hotloads more than 2.0 seconds
    apart: in every run of saves, watcher notifications and writes by
    other programs, each clock reading at which a hotload is started is
    more than 2.0 seconds after the one before it (and the first after
    the hotload time the run began with), whichever of the two started
    them; the hotloads counted are exactly those. *)
Theorem hotloads_are_spaced (actions : list action) (s : session) :
  spaced (last_hotload_time (ed s) :: trigger_times actions s)
  /\ hotloads_started (run actions s)
     = hotloads_started s + length (trigger_times actions s).
Proof.
  revert s. induction actions as [|a rest IH]; intros s.
  - simpl. split; [exact I | lia].
  - destruct (IH (step a s)) as (Hspaced & Hcount).
    change (run (a :: rest) s) with (run rest (step a s)).
    change (trigger_times (a :: rest) s)
      with ((match action_time a with
             | Some t => if Nat.ltb (hotloads_started s)
                                    (hotloads_started (step a s))
                         then [t] else []
             | None => []
             end) ++ trigger_times rest (step a s)).
    destruct (step_fires_or_not a s) as [(Hn & Ht)|(t & Ha & Hn & Ht & Hlt)].
    + rewrite Hn, Nat.ltb_irrefl. rewrite Ht in Hspaced. rewrite Hn in Hcount.
      now destruct (action_time a).
    + rewrite Ha, Hn. rewrite Ht in Hspaced. rewrite Hn in Hcount.
      replace (Nat.ltb (hotloads_started s) (S (hotloads_started s))) with true
        by (symmetry; apply Nat.ltb_lt; lia).
      split; [|rewrite Hcount; simpl; lia].
      simpl app. split; [exact Hlt | exact Hspaced].
Qed.

End TriggerSpacing.

(** ** The log written by build steps *)

Section RunStepLog.
Import PyStr RunStep.

Lemma splitlines_from_each_one_line (n : nat) (cur s : string) :
  String.length s <= n ->
  one_line cur = true ->
  Forall (fun l => one_line l = true) (splitlines_from cur s).
Proof.
  revert cur s. induction n as [|n IH]; intros cur s Hn Hcur.
  - destruct s; [|simpl in Hn; lia]. simpl.
    destruct (String.eqb cur ""); repeat constructor. exact Hcur.
  - destruct s as [|c s]; simpl.
    + destruct (String.eqb cur ""); repeat constructor. exact Hcur.
    + simpl in Hn. destruct (is_linebreak c) eqn:Hc.
      * destruct s as [|c' s'].
        -- repeat constructor. exact Hcur.
        -- simpl in Hn.
           destruct (is_cr c && is_lf c')%bool; constructor; try exact Hcur;
             apply IH; simpl; try lia; reflexivity.
      * apply IH; [lia|]. rewrite one_line_app, Hcur. simpl. now rewrite Hc.
Qed.

Lemma splitlines_each_one_line (s : string) :
  Forall (fun l => one_line l = true) (splitlines s).
Proof. now apply (splitlines_from_each_one_line (String.length s)). Qed.

Lemma one_line_concat (sep : string) (ls : list string) :
  one_line sep = true ->
  Forall (fun l => one_line l = true) ls ->
  one_line (String.concat sep ls) = true.
Proof.
  intros Hsep. induction 1 as [|l ls Hl Hls IH]; [reflexivity|].
  destruct ls as [|l' ls]; [exact Hl|].
  change (String.concat sep (l :: l' :: ls))
    with (l +:+ sep +:+ String.concat sep (l' :: ls)).
  now rewrite !one_line_app, Hl, Hsep, IH.
Qed.

(** X18.  The log stays a list of single lines: [_run_step] only
    appends to [log_lines], and when the label and the words of the
    command hold no line break, no appended entry holds one, whatever
    the process wrote and however it ended. *)
Theorem run_step_logs_single_lines (label : string) (cmd : list string)
    (capture_output : bool) (o : run_outcome) (r : report) :
  one_line label = true ->
  Forall (fun word => one_line word = true) cmd ->
  exists added,
    log_lines (snd (_run_step label cmd capture_output o r))
    = log_lines r ++ added
    /\ Forall (fun l => one_line l = true) added.
Proof.
  intros Hlabel Hcmd. unfold _run_step.
  destruct o as [returncode stdout stderr| |].
  - destruct (negb (returncode =? 0)%Z).
    + destruct (nonempty _).
      * eexists. split; [reflexivity|]. apply splitlines_each_one_line.
      * exists []. split; [simpl; now rewrite app_nil_r | constructor].
    + destruct capture_output.
      * exists ((if truthy stdout then splitlines (or_empty stdout) else [])
                ++ (if truthy stderr then splitlines (or_empty stderr) else [])).
        split.
        -- destruct (truthy stdout), (truthy stderr); simpl;
             rewrite ?app_nil_r, ?app_assoc; reflexivity.
        -- apply Forall_app. split.
           ++ destruct (truthy stdout); [apply splitlines_each_one_line | constructor].
           ++ destruct (truthy stderr); [apply splitlines_each_one_line | constructor].
      * eexists. split; [reflexivity|]. repeat constructor.
        rewrite !one_line_app, Hlabel. simpl.
        now apply one_line_concat.
  - eexists. split; [reflexivity|]. repeat constructor.
    now rewrite one_line_app, Hlabel.
  - exists []. split; [simpl; now rewrite app_nil_r | constructor].
Qed.

End RunStepLog.

(** ** Paths derived from the project source *)

Section EditorFacts.
Import PyStr Trigger Editor.

Lemma str_prefix_cons (a b : Ascii.ascii) (p s : string) :
  String.prefix (String a p) (String b s)
  = if Ascii.ascii_dec a b then String.prefix p s else false.
Proof. reflexivity. Qed.

Lemma str_prefix_nil (s : string) : String.prefix "" s = true.
Proof. now destruct s. Qed.

Lemma str_prefix_self_app (p b : string) : String.prefix p (p +:+ b) = true.
Proof.
  induction p as [|c p IH]; [apply str_prefix_nil|].
  rewrite append_cons, str_prefix_cons. now destruct (Ascii.ascii_dec c c).
Qed.

Lemma str_prefix_app_mono (p x y : string) :
  String.prefix p x = true -> String.prefix p (x +:+ y) = true.
Proof.
  revert x. induction p as [|c p IH]; intros x H; [apply str_prefix_nil|].
  destruct x as [|d x]; [discriminate|].
  rewrite append_cons, str_prefix_cons in *.
  destruct (Ascii.ascii_dec c d); [now apply IH | discriminate].
Qed.

Lemma str_prefix_split (p s : string) :
  String.prefix p s = true -> exists b, s = p +:+ b.
Proof.
  revert s. induction p as [|c p IH]; intros s H; [now exists s|].
  destruct s as [|d s]; [discriminate|]. rewrite str_prefix_cons in H.
  destruct (Ascii.ascii_dec c d) as [->|]; [|discriminate].
  destruct (IH s H) as [b ->]. now exists b.
Qed.

(** A pattern whose first character does not come back in it cannot
    begin before an occurrence of itself and reach into it. *)
Lemma str_prefix_app_inv (c0 : Ascii.ascii) (o a rest : string) :
  occurs c0 o = false ->
  String.prefix o (a +:+ String c0 rest) = true ->
  String.prefix o a = true.
Proof.
  revert a. induction o as [|x o IH]; intros a Hocc H; [apply str_prefix_nil|].
  simpl in Hocc. apply orb_false_elim in Hocc as [Hx Ho].
  destruct a as [|y a].
  - rewrite append_nil, str_prefix_cons in H.
    destruct (Ascii.ascii_dec x c0) as [->|]; [|discriminate].
    now rewrite Ascii.eqb_refl in Hx.
  - rewrite append_cons, str_prefix_cons in *.
    destruct (Ascii.ascii_dec x y); [now apply IH | discriminate].
Qed.

Lemma contains_cons (old : string) (c : Ascii.ascii) (s : string) :
  contains old (String c s)
  = if String.prefix old (String c s) then true else contains old s.
Proof. reflexivity. Qed.

Lemma contains_split (old s : string) :
  old <> "" ->
  contains old s = true ->
  exists a b, s = a +:+ old +:+ b /\ contains old a = false.
Proof.
  intros Hold. induction s as [|c s IH]; intros H.
  - destruct old; [congruence | discriminate].
  - rewrite contains_cons in H.
    destruct (String.prefix old (String c s)) eqn:Hp.
    + destruct (str_prefix_split _ _ Hp) as [b ->]. exists "", b.
      split; [reflexivity|]. now destruct old.
    + destruct (IH H) as (a & b & -> & Ha). exists (String c a), b.
      split; [reflexivity|]. rewrite contains_cons.
      destruct (String.prefix old (String c a)) eqn:Hpa; [|exact Ha].
      apply (str_prefix_app_mono _ _ (old +:+ b)) in Hpa.
      rewrite append_cons in Hpa. congruence.
Qed.

Lemma append_inj_l (a x y : string) : a +:+ x = a +:+ y -> x = y.
Proof.
  induction a as [|c a IH]; [trivial|].
  rewrite !append_cons. intros [= H]. now apply IH.
Qed.

Lemma replace_skip (old new p s : string) :
  replace_from (String.length p) old new (p +:+ s) = replace_from 0 old new s.
Proof. induction p as [|c p IH]; [reflexivity | exact IH]. Qed.

Lemma replace_at (c0 : Ascii.ascii) (o new b : string) :
  str_replace (String c0 o) new (String c0 o +:+ b)
  = new +:+ str_replace (String c0 o) new b.
Proof.
  unfold str_replace. rewrite append_cons.
  change (replace_from 0 (String c0 o) new (String c0 (o +:+ b)))
    with (if String.prefix (String c0 o) (String c0 (o +:+ b))
          then new +:+ replace_from (String.length o - 0) (String c0 o) new (o +:+ b)
          else String c0 (replace_from 0 (String c0 o) new (o +:+ b))).
  rewrite <- append_cons, str_prefix_self_app, Nat.sub_0_r.
  now rewrite replace_skip.
Qed.

(** The first occurrence is replaced, and the search goes on behind
    it. *)
Lemma replace_first (c0 : Ascii.ascii) (o new a b : string) :
  occurs c0 o = false ->
  contains (String c0 o) a = false ->
  str_replace (String c0 o) new (a +:+ String c0 o +:+ b)
  = a +:+ new +:+ str_replace (String c0 o) new b.
Proof.
  intros Hocc. induction a as [|c a IH]; intros Ha.
  - rewrite !append_nil. apply replace_at.
  - rewrite contains_cons in Ha.
    destruct (String.prefix (String c0 o) (String c a)) eqn:Hp; [discriminate|].
    rewrite (append_cons c a), (append_cons c a). unfold str_replace in *.
    change (replace_from 0 (String c0 o) new (String c (a +:+ String c0 o +:+ b)))
      with (if String.prefix (String c0 o) (String c (a +:+ String c0 o +:+ b))
            then new +:+ replace_from (String.length o - 0) (String c0 o) new
                           (a +:+ String c0 o +:+ b)
            else String c (replace_from 0 (String c0 o) new
                             (a +:+ String c0 o +:+ b))).
    destruct (String.prefix (String c0 o) (String c (a +:+ String c0 o +:+ b)))
      eqn:Hp'.
    + exfalso. rewrite str_prefix_cons in Hp, Hp'.
      destruct (Ascii.ascii_dec c0 c); [|discriminate].
      rewrite append_cons in Hp'.
      apply (str_prefix_app_inv c0 o a (o +:+ b) Hocc) in Hp'. congruence.
    + now rewrite IH.
Qed.

(** X19.  The C++ file of a project source: [".cpp"] takes the place of
    every [".hd"] in the path, not only of the extension.  So the path
    looked for is the source's path with the extension changed exactly
    when [".hd"] occurs nowhere else in it. *)
Theorem cpp_path_of_project_source (stem : string) :
  (cpp_path_of (stem +:+ ".hd") = stem +:+ ".cpp"
   <-> contains ".hd" stem = false)
  /\ (forall a b, contains ".hd" a = false ->
        cpp_path_of (a +:+ ".hd" +:+ b) = a +:+ ".cpp" +:+ cpp_path_of b)
  /\ (forall files e,
        original_hd_path e = stem +:+ ".hd" ->
        contains ".hd" stem = false ->
        cpp_file_exists files e = true <-> is_Some (files !! (stem +:+ ".cpp"))).
Proof.
  assert (Hfirst : forall a b, contains ".hd" a = false ->
            cpp_path_of (a +:+ ".hd" +:+ b) = a +:+ ".cpp" +:+ cpp_path_of b).
  { intros a b Ha. now apply replace_first. }
  assert (Hext : forall s, contains ".hd" s = false ->
            cpp_path_of (s +:+ ".hd") = s +:+ ".cpp").
  { intros s Hs. rewrite <- (append_empty_r (s +:+ ".hd")), append_assoc.
    rewrite Hfirst by exact Hs. reflexivity. }
  split; [|split].
  - split; [|apply Hext].
    intros H. destruct (contains ".hd" stem) eqn:Hc; [exfalso|reflexivity].
    destruct (contains_split ".hd" stem) as (a & b & -> & Ha);
      [discriminate | exact Hc |].
    rewrite !append_assoc, Hfirst in H by exact Ha.
    apply append_inj_l in H. discriminate H.
  - exact Hfirst.
  - intros files e Hpath Hstem. unfold cpp_file_exists, exists_.
    rewrite Hpath, endswith_app, Hext by exact Hstem. simpl.
    apply bool_decide_eq_true.
Qed.

Lemma endswith_heiroc_hd (stem : string) :
  endswith (stem +:+ ".heiroc") ".hd" = false.
Proof.
  change ".heiroc" with (".hei" +:+ "roc"). rewrite <- append_assoc.
  apply endswith_other; [reflexivity | discriminate].
Qed.

(** X20.  The editor always opens in the ["hd"] view: the ["hr"] view
    chosen for a [".heiroc"] path is overwritten before [__init__]
    returns. *)
Theorem editor_opens_in_hd_view (files : gmap string string) (path : string) :
  let e := __init__ files path in
  view_mode e = "hd"
  /\ viewing_hd e = true
  /\ Trigger.path e = path
  /\ Trigger.lines e = Buffer._load_file files path
  /\ (endswith path ".heiroc" = false -> save_path_of e = path).
Proof.
  cbv zeta. unfold __init__, save_path_of.
  assert (Hboth : endswith path ".heiroc" = true -> endswith path ".hd" = false).
  { intros H. apply endswith_inv in H as [stem ->]. apply endswith_heiroc_hd. }
  destruct (nonempty path) eqn:Hne, (endswith path ".heiroc") eqn:Hhr,
    (endswith path ".hd") eqn:Hhd; simpl; repeat split;
    solve [reflexivity | discriminate | now specialize (Hboth eq_refl)].
Qed.


Variable basename : string -> string.


End EditorFacts.

(** ** Syntax colouring *)

Section SyntaxFacts.
Import PyStr Buffer Syntax.

Lemma text_of_app (a b : list token) :
  text_of (a ++ b) = text_of a +:+ text_of b.
Proof.
  induction a as [|tok a IH]; [reflexivity|].
  simpl. now rewrite IH, append_assoc.
Qed.

Lemma text_of_flush (current : string) : text_of (flush current) = current.
Proof.
  unfold flush. destruct current; [reflexivity|].
  simpl. now rewrite append_empty_r.
Qed.

Lemma tokens_of_cons (ts : list token) (r : scanned) :
  tokens_of (cons_tokens ts r) = ts ++ tokens_of r.
Proof. now destruct r. Qed.

Lemma str_drop_drop (n m : nat) (s : string) :
  str_drop n (str_drop m s) = str_drop (m + n) s.
Proof.
  revert s. induction m as [|m IH]; intros s; [reflexivity|].
  destruct s as [|c s]; [now destruct n|]. apply IH.
Qed.

(** *** Nothing of the line is lost *)

Lemma scan_text (s : string) (skip : nat) (current : string) :
  text_of (tokens_of (scan skip current s)) = current +:+ str_drop skip s.
Proof.
  revert skip current. induction s as [|ch rest IH]; intros skip current.
  - simpl. rewrite text_of_flush. destruct skip; simpl; now rewrite append_empty_r.
  - destruct skip as [|k]; [|apply IH].
    cbn [scan].
    destruct (Ascii.eqb ch slash && _)%bool.
    + cbn [tokens_of]. rewrite text_of_app, text_of_flush. simpl.
      now rewrite append_empty_r.
    + destruct (Ascii.eqb ch quote).
      * rewrite tokens_of_cons, !text_of_app, text_of_flush, IH. simpl.
        rewrite append_nil, append_empty_r, append_assoc, append_cons.
        now rewrite str_take_drop.
      * rewrite IH. simpl. now rewrite append_assoc.
Qed.

Lemma is_word_start_char (c : Ascii.ascii) :
  is_word_start c = true -> is_word_char c = true.
Proof. unfold is_word_char. now intros ->. Qed.

Lemma word_at_positive (t : string) (n : nat) : word_at t = Some n -> 1 <= n.
Proof.
  destruct t as [|c t]; [discriminate|]. unfold word_at.
  destruct (Ascii.eqb c at_sign && starts_with is_word_start t)%bool;
    [intros [= <-]; lia|].
  destruct (is_word_start c) eqn:Hc; [|discriminate].
  intros [= <-]. simpl. rewrite (is_word_start_char c Hc). lia.
Qed.

Lemma search_word_cons (c : Ascii.ascii) (t : string) :
  search_word (String c t)
  = match word_at (String c t) with
    | Some n => Some (0, n)
    | None => match search_word t with
              | Some (start, n) => Some (S start, n)
              | None => None
              end
    end.
Proof. reflexivity. Qed.

(** Where the search finds a word, the word expression matches. *)
Lemma search_word_at (t : string) (start n : nat) :
  search_word t = Some (start, n) -> word_at (str_drop start t) = Some n.
Proof.
  revert start. induction t as [|c t IH]; intros start; [discriminate|].
  rewrite search_word_cons.
  destruct (word_at (String c t)) as [n'|] eqn:Hat.
  - intros [= <- <-]. exact Hat.
  - destruct (search_word t) as [[start' n']|]; [|discriminate].
    intros [= <- <-]. now apply IH.
Qed.

Lemma words_text (t : string) (skip : nat) :
  text_of (words skip t) = str_drop skip t.
Proof.
  revert skip. induction t as [|c t IH]; intros skip; [now destruct skip|].
  destruct skip as [|k]; [|apply IH].
  cbn [words]. destruct (search_word (String c t)) as [[start n]|] eqn:Hs.
  - pose proof (word_at_positive _ _ (search_word_at _ _ _ Hs)) as Hn.
    rewrite text_of_app. cbn [text_of fold_right fst]. rewrite IH.
    remember (start + n - 1) as m eqn:Hm.
    assert (Hsum : start + n = S m) by lia.
    change (str_drop m t) with (str_drop (S m) (String c t)).
    rewrite <- Hsum, <- str_drop_drop, str_take_drop.
    destruct (Nat.ltb_spec 0 start).
    + simpl. rewrite append_empty_r. apply str_take_drop.
    + replace start with 0 by lia. reflexivity.
  - simpl. now rewrite append_empty_r.
Qed.

Lemma colored_text (tokens : list token) :
  text_of (colored tokens) = text_of tokens.
Proof.
  induction tokens as [|[text [c|]] tokens IH]; [reflexivity| |].
  - simpl in *. now rewrite IH.
  - unfold colored in *. simpl flat_map. rewrite text_of_app, IH.
    simpl. now rewrite words_text.
Qed.

(** X22.  The tokens of a line, put together, are the line: the
    colouring loses no character, adds none, and keeps their order. *)
Theorem syntax_tokens_cover_the_line (line : string) :
  text_of (_syntax_tokens line) = line.
Proof.
  pose proof (scan_text line 0 "") as H. unfold _syntax_tokens.
  destruct (scan 0 "" line) as [tokens|tokens]; simpl in H.
  - exact H.
  - now rewrite colored_text.
Qed.

(** *** The colour of numbers *)

Lemma word_start_not_digit (c : Ascii.ascii) :
  is_word_start c = true ->
  is_digit c = false /\ Ascii.eqb c (Ascii.ascii_of_nat 48) = false.
Proof.
  destruct c as [[] [] [] [] [] [] [] []]; vm_compute; intros H;
    first [discriminate H | split; reflexivity].
Qed.

Lemma word_color_not_number (t : string) (n : nat) :
  word_at t = Some n -> word_color (str_take n t) <> Some COLOR_NUMBER.
Proof.
  intros Hat. pose proof (word_at_positive t n Hat) as Hn.
  destruct t as [|c t]; [discriminate|]. destruct n as [|n]; [lia|].
  cbn [str_take]. unfold word_color.
  destruct (member _ keywords); [discriminate|].
  destruct (member _ types); [discriminate|].
  destruct (String.eqb _ "print"); [discriminate|].
  cbn [starts_with]. unfold word_at in Hat.
  destruct (Ascii.eqb at_sign c) eqn:Hsign; [discriminate|].
  rewrite Ascii.eqb_sym, Hsign in Hat. cbn [andb] in Hat.
  destruct (is_word_start c) eqn:Hc; [|discriminate].
  destruct (word_start_not_digit c Hc) as (Hd & Hz).
  unfold num_regex_match. cbn [starts_with]. rewrite Hd. cbn [andb orb].
  destruct (str_take n t) as [|x h]; [discriminate|].
  rewrite Hz. discriminate.
Qed.

Lemma words_not_number (t : string) (skip : nat) :
  Forall (fun tok : token => snd tok <> Some COLOR_NUMBER) (words skip t).
Proof.
  revert skip. induction t as [|c t IH]; intros skip; [constructor|].
  destruct skip as [|k]; [|apply IH].
  cbn [words]. destruct (search_word (String c t)) as [[start n]|] eqn:Hs.
  - apply Forall_app. split.
    + destruct (Nat.ltb 0 start); repeat constructor; discriminate.
    + constructor; [|apply IH].
      apply word_color_not_number. now apply search_word_at.
  - repeat constructor. discriminate.
Qed.

Lemma scan_colors (s : string) (skip : nat) (current : string) :
  Forall (fun tok : token => snd tok <> Some COLOR_NUMBER)
    (tokens_of (scan skip current s)).
Proof.
  assert (Hflush : forall cur,
            Forall (fun tok : token => snd tok <> Some COLOR_NUMBER) (flush cur)).
  { intros cur. unfold flush. destruct (nonempty cur); repeat constructor.
    discriminate. }
  revert skip current. induction s as [|ch rest IH]; intros skip current.
  - apply Hflush.
  - destruct skip as [|k]; [|apply IH].
    cbn [scan].
    destruct (Ascii.eqb ch slash && _)%bool.
    + apply Forall_app. split; [apply Hflush|]. repeat constructor. discriminate.
    + destruct (Ascii.eqb ch quote); [|apply IH].
      rewrite tokens_of_cons. apply Forall_app. split; [|apply IH].
      apply Forall_app. split; [apply Hflush|]. repeat constructor. discriminate.
Qed.

(** X23.  No token is ever given the colour of numbers: the words the
    colouring looks at begin with a letter, an underscore or [@], and
    the pattern for numbers matches none of those. *)
Theorem numbers_are_never_colored (line : string) :
  Forall (fun tok : token => snd tok <> Some COLOR_NUMBER) (_syntax_tokens line).
Proof.
  pose proof (scan_colors line 0 "") as H. unfold _syntax_tokens.
  destruct (scan 0 "" line) as [tokens|tokens]; simpl in H; [exact H|].
  unfold colored. induction H as [|[text [c|]] tokens Htok Htokens IH].
  - constructor.
  - simpl. constructor; [exact Htok | exact IH].
  - simpl. apply Forall_app. split; [apply words_not_number | exact IH].
Qed.

(** *** Lines with a comment *)

Lemma str_prefix_slashes (s : string) :
  String.prefix "//" (String slash (String slash s)) = true.
Proof.
  change "//" with (String slash (String slash "")). rewrite !str_prefix_cons.
  destruct (Ascii.ascii_dec slash slash); [apply str_prefix_nil | congruence].
Qed.

Lemma scan_comment (code rest current : string) :
  Editor.occurs quote code = false ->
  Trigger.contains "//" (code +:+ "/") = false ->
  scan 0 current (code +:+ "//" +:+ rest)
  = Returned (flush (current +:+ code) ++ [("//" +:+ rest, Some COLOR_COMMENT)]).
Proof.
  revert current. induction code as [|ch code IH]; intros current Hquote Hcode.
  - now rewrite append_nil, append_empty_r.
  - cbn [Editor.occurs] in Hquote.
    apply orb_false_elim in Hquote as [Hch Hquote].
    rewrite append_cons in Hcode. cbn [Trigger.contains] in Hcode.
    destruct (String.prefix "//" (String ch (code +:+ "/"))) eqn:Hp;
      [discriminate|].
    rewrite append_cons. cbn [scan].
    rewrite Ascii.eqb_sym in Hch. rewrite Hch.
    assert (Hnot : (Ascii.eqb ch slash
                    && String.eqb
                         match code +:+ "//" +:+ rest with
                         | String c _ => String c ""
                         | EmptyString => ""
                         end (String slash ""))%bool = false).
    { destruct (Ascii.eqb_spec ch slash) as [->|]; [|reflexivity].
      destruct code as [|c code];
        [rewrite append_nil, str_prefix_slashes in Hp; discriminate Hp|].
      rewrite append_cons in *. cbn [andb].
      destruct (Ascii.eqb_spec c slash) as [->|Hc];
        [rewrite str_prefix_slashes in Hp; discriminate Hp|].
      apply String.eqb_neq. congruence. }
    rewrite Hnot, IH by assumption.
    now rewrite append_assoc.
Qed.

(** X24.  In a line with a comment and no string literal before it,
    only the comment is coloured: the loop returns at the [//], before
    the words of the line are looked at, so the keywords and types
    before the comment stay in the default colour. *)
Theorem commented_line_is_not_colored (code rest : string) :
  Editor.occurs quote code = false ->
  Trigger.contains "//" (code +:+ "/") = false ->
  _syntax_tokens (code +:+ "//" +:+ rest)
  = flush code ++ [("//" +:+ rest, Some COLOR_COMMENT)].
Proof.
  intros Hquote Hcode. unfold _syntax_tokens.
  now rewrite scan_comment by assumption.
Qed.

End SyntaxFacts.

(** ** Syntax colouring of shaders *)

Section GlslFacts.
Import PyStr Buffer Syntax Glsl.

Lemma str_drop_nil (n : nat) : str_drop n "" = "".
Proof. now destruct n. Qed.

Lemma str_drop_all (n : nat) (s : string) :
  String.length s <= n -> str_drop n s = "".
Proof.
  revert s. induction n as [|n IH]; intros [|c s] H; simpl in *;
    try reflexivity; try lia.
  apply IH. lia.
Qed.

Lemma str_take_all (n : nat) (s : string) :
  String.length s <= n -> str_take n s = s.
Proof.
  revert s. induction n as [|n IH]; intros [|c s] H; simpl in *;
    try reflexivity; try lia.
  rewrite IH by lia. reflexivity.
Qed.

Lemma str_take_add (a b : nat) (s : string) :
  str_take (a + b) s = str_take a s +:+ str_take b (str_drop a s).
Proof.
  revert s. induction a as [|a IH]; intros s; [reflexivity|].
  destruct s as [|c s]; [now destruct b|].
  simpl. now rewrite IH, append_cons.
Qed.

Lemma str_drop_length (n : nat) (s : string) :
  String.length (str_drop n s) = String.length s - n.
Proof.
  revert s. induction n as [|n IH]; intros [|c s]; simpl; try lia. apply IH.
Qed.

Lemma run_len_le (p : Ascii.ascii -> bool) (s : string) :
  run_len p s <= String.length s.
Proof.
  induction s as [|c s IH]; simpl; [lia|]. destruct (p c); simpl; lia.
Qed.

Lemma text_of_cons (tok : token) (tokens : list token) :
  text_of (tok :: tokens) = fst tok +:+ text_of tokens.
Proof. reflexivity. Qed.

(** *** The words [findall] returns *)

Lemma findall_skip (k : nat) (t : string) :
  findall k t = findall 0 (str_drop k t).
Proof.
  revert k. induction t as [|c t IH]; intros k; [now destruct k|].
  destruct k as [|k]; [reflexivity|]. apply IH.
Qed.

Lemma findall_gap (t : string) :
  findall 0 t = findall 0 (str_drop (gap_len t) t).
Proof.
  induction t as [|c t IH]; [reflexivity|].
  unfold gap_len in *. cbn [run_len].
  destruct (is_word_start c) eqn:Hc; cbn [negb]; [reflexivity|].
  cbn [findall str_drop]. rewrite Hc. exact IH.
Qed.

Lemma findall_word (c : Ascii.ascii) (t : string) :
  is_word_start c = true ->
  let n := run_len is_word_char (String c t) in
  1 <= n
  /\ findall 0 (String c t)
     = str_take n (String c t) :: findall 0 (str_drop n (String c t)).
Proof.
  intros Hc. cbv zeta. cbn [findall]. rewrite Hc.
  cbn [run_len]. rewrite (is_word_start_char c Hc).
  split; [lia|]. f_equal. rewrite findall_skip.
  now rewrite Nat.sub_succ, Nat.sub_0_r.
Qed.

Lemma gap_is_plain (t : string) (c : Ascii.ascii) (rest : string) :
  str_drop (gap_len t) t = String c rest -> is_word_start c = true.
Proof.
  unfold gap_len. induction t as [|d t IH]; [discriminate|].
  cbn [run_len]. destruct (is_word_start d) eqn:Hd; simpl.
  - now intros [= <- _].
  - exact IH.
Qed.

(** Ahead of a word, [find] finds nothing: the word begins with a
    character that the text before it does not hold. *)
Lemma first_occurrence_gap (t word rest : string) :
  starts_with is_word_start word = true ->
  str_drop (gap_len t) t = word +:+ rest ->
  first_occurrence word t = Some (gap_len t).
Proof.
  intros Hword. destruct word as [|c0 word]; [discriminate|].
  simpl in Hword. unfold gap_len.
  induction t as [|d t IH]; intros Ht.
  - discriminate Ht.
  - cbn [run_len] in *. cbn [first_occurrence].
    destruct (is_word_start d) eqn:Hd.
    + simpl in Ht. rewrite Ht, str_prefix_self_app. reflexivity.
    + simpl in Ht. rewrite str_prefix_cons.
      destruct (Ascii.ascii_dec c0 d) as [->|]; [congruence|].
      now rewrite (IH Ht).
Qed.

(** *** Nothing of the line is lost *)

Section OneText.
Variable text : string.

Lemma words_loop_text (n : nat) (t : string) (p : nat) :
  String.length t <= n ->
  str_drop p text = t ->
  p + String.length t = String.length text ->
  exists tokens q,
    words_loop text (findall 0 t) (Z.of_nat p) = (tokens, Z.of_nat q)
    /\ p <= q <= String.length text
    /\ text_of tokens = str_take (q - p) t.
Proof.
  revert t p. induction n as [|n IH]; intros t p Hn Ht Hp.
  - destruct t; [|simpl in Hn; lia]. exists [], p. simpl.
    rewrite Nat.sub_diag. repeat split; lia.
  - rewrite findall_gap.
    destruct (str_drop (gap_len t) t) as [|c rest] eqn:Hgap.
    + exists [], p. simpl. rewrite Nat.sub_diag.
      repeat split; first [lia | now destruct t].
    + pose proof (gap_is_plain t c rest Hgap) as Hc.
      destruct (findall_word c rest Hc) as (Hone & Hfind). cbv zeta in *.
      set (g := gap_len t) in *.
      set (m := run_len is_word_char (String c rest)) in *.
      set (word := str_take m (String c rest)) in *.
      rewrite Hfind. cbn [words_loop].
      assert (Hg : g + String.length (String c rest) = String.length t).
      { rewrite <- Hgap, str_drop_length.
        pose proof (run_len_le (fun c => negb (is_word_start c)) t).
        unfold g, gap_len. lia. }
      assert (Hm : m <= String.length (String c rest)) by apply run_len_le.
      assert (Hword : len word = Z.of_nat m).
      { unfold len, word. now rewrite str_take_length by exact Hm. }
      assert (Hpos : find text word (Z.of_nat p) = Z.of_nat (p + g)).
      { unfold find, len.
        destruct (Z.ltb_spec (Z.of_nat (String.length text)) (Z.of_nat p)); [lia|].
        rewrite slice_bound_inside, Nat2Z.id by lia. rewrite Ht.
        rewrite (first_occurrence_gap t word (str_drop m (String c rest))).
        - reflexivity.
        - unfold word. destruct m; [lia|]. exact Hc.
        - fold g. rewrite Hgap. unfold word. now rewrite str_take_drop. }
      rewrite Hpos, Hword.
      replace (Z.of_nat (p + g) + Z.of_nat m)%Z with (Z.of_nat (p + g + m)) by lia.
      destruct (IH (str_drop m (String c rest)) (p + g + m)) as (tokens & q & Hloop & Hq & Htext).
      * rewrite str_drop_length. simpl in *. lia.
      * replace (p + g + m) with (p + (g + m)) by lia.
        rewrite <- str_drop_drop, Ht, <- str_drop_drop, Hgap. reflexivity.
      * rewrite str_drop_length. lia.
      * rewrite Hloop. eexists _, q. split; [reflexivity|]. split; [lia|].
        rewrite text_of_app, text_of_cons. cbn [fst]. rewrite Htext.
        replace (q - p) with (g + (m + (q - (p + g + m)))) by lia.
        rewrite str_take_add, Hgap, str_take_add. fold word. f_equal.
        destruct (Z.ltb_spec (Z.of_nat p) (Z.of_nat (p + g))) as [Hlt|Hge].
        -- simpl. rewrite append_empty_r. unfold slice.
           rewrite !slice_bound_inside, !Nat2Z.id by lia. rewrite Ht.
           f_equal. lia.
        -- replace g with 0 by lia. reflexivity.
Qed.

Lemma glsl_words_text : text_of (glsl_words text) = text.
Proof.
  unfold glsl_words.
  destruct (words_loop_text (String.length text) text 0)
    as (tokens & q & Hloop & Hq & Htext); [lia | reflexivity | lia |].
  change 0%Z with (Z.of_nat 0). rewrite Hloop, text_of_app, Htext.
  rewrite Nat.sub_0_r. unfold len.
  destruct (Z.ltb_spec (Z.of_nat q) (Z.of_nat (String.length text))).
  - simpl. rewrite append_empty_r. unfold str_from.
    rewrite slice_bound_inside, Nat2Z.id by lia. apply str_take_drop.
  - simpl. rewrite append_empty_r. apply str_take_all. lia.
Qed.

End OneText.

Lemma glsl_colored_text (tokens : list token) :
  text_of (glsl_colored tokens) = text_of tokens.
Proof.
  induction tokens as [|[text [c|]] tokens IH]; [reflexivity| |].
  - simpl in *. now rewrite IH.
  - unfold glsl_colored in *. simpl flat_map. rewrite text_of_app, IH.
    simpl. now rewrite glsl_words_text.
Qed.

(** X27.  The tokens of a shader line, put together, are the line:
    [text.find] finds each word where [findall] matched it, so the
    pieces between the words are the text between them. *)
Theorem glsl_tokens_cover_the_line (line : string) :
  text_of (_syntax_tokens_glsl line) = line.
Proof.
  pose proof (scan_text line 0 "") as H. unfold _syntax_tokens_glsl.
  destruct (scan 0 "" line) as [tokens|tokens]; simpl in H.
  - exact H.
  - now rewrite glsl_colored_text.
Qed.

(** *** The colour of numbers *)

Lemma num_regex_no_word (word : string) :
  starts_with is_word_start word = true -> num_regex_match word = false.
Proof.
  destruct word as [|c word]; [discriminate|]. simpl. intros Hc.
  destruct (word_start_not_digit c Hc) as (Hd & Hz).
  unfold num_regex_match. cbn [starts_with]. rewrite Hd. cbn [andb orb].
  destruct word as [|x h]; [reflexivity|]. now rewrite Hz.
Qed.

Lemma findall_words (t : string) (k : nat) :
  Forall (fun word => starts_with is_word_start word = true) (findall k t).
Proof.
  revert k. induction t as [|c t IH]; intros k; [constructor|].
  destruct k as [|k]; [|apply IH]. cbn [findall].
  destruct (is_word_start c) eqn:Hc; [|apply IH].
  constructor; [|apply IH].
  cbn [run_len]. now rewrite (is_word_start_char c Hc).
Qed.

Lemma words_loop_colors (text : string) (parts : list string) (last_pos : Z) :
  Forall (fun word => starts_with is_word_start word = true) parts ->
  Forall (fun tok : token => snd tok <> Some COLOR_NUMBER)
    (fst (words_loop text parts last_pos)).
Proof.
  intros H. revert last_pos. induction H as [|word parts Hword Hparts IH];
    intros last_pos; [constructor|].
  cbn [words_loop].
  specialize (IH (find text word last_pos + len word)%Z).
  destruct (words_loop text parts _) as [tokens final]. simpl in *.
  apply Forall_app. split.
  - destruct (_ <? _)%Z; repeat constructor. discriminate.
  - constructor; [|exact IH]. simpl. unfold glsl_word_color.
    rewrite (num_regex_no_word word Hword).
    destruct (member word glsl_keywords); discriminate.
Qed.

(** X28.  No token of a shader line is ever given the colour of
    numbers either: the words looked at begin with a letter or an
    underscore, and the pattern for numbers matches none of them. *)
Theorem glsl_numbers_are_never_colored (line : string) :
  Forall (fun tok : token => snd tok <> Some COLOR_NUMBER)
    (_syntax_tokens_glsl line).
Proof.
  pose proof (scan_colors line 0 "") as H. unfold _syntax_tokens_glsl.
  destruct (scan 0 "" line) as [tokens|tokens]; simpl in H; [exact H|].
  unfold glsl_colored. induction H as [|[text [c|]] tokens Htok Htokens IH].
  - constructor.
  - simpl. constructor; [exact Htok | exact IH].
  - simpl. apply Forall_app. split; [|exact IH].
    unfold glsl_words.
    pose proof (words_loop_colors text (findall 0 text) 0 (findall_words text 0)) as Hw.
    destruct (words_loop text (findall 0 text) 0) as [toks final]. simpl in Hw.
    apply Forall_app. split; [exact Hw|].
    destruct (_ <? _)%Z; repeat constructor. discriminate.
Qed.

End GlslFacts.

(** ** The project settings file *)

Section ConfigFacts.
Import PyStr Config.

(** X25.  The settings the new-project dialog writes are the settings
    the build reads: [_do_build] finds the two switches as they were
    written and leaves the others off, and [load_project_config] finds
    them as well. *)
Theorem project_settings_round_trip (files : gmap string string)
    (config_path : string) (ui_windows neuroshell : bool) :
  let files' := write_config files config_path ui_windows neuroshell in
  read_build_settings files' config_path
  = {| ui_windows_enabled := ui_windows; neuroshell_enabled := neuroshell;
       imgui_glfw_enabled := false; use_modular_engine := false;
       modular_engine_sources := [] |}
  /\ load_project_config files' config_path
     = {| enable_ui_windows := ui_windows; enable_neuroshell := neuroshell |}.
Proof.
  cbv zeta. unfold read_build_settings, load_project_config, write_config.
  rewrite lookup_insert_eq.
  destruct ui_windows, neuroshell; vm_compute; split; reflexivity.
Qed.

(** A line that begins with one of the five keys has a value: the loop
    of [_do_build] does not raise. *)
Lemma read_line_returns (line : string) (b : build_settings) :
  exists b', read_line line b = Some b'.
Proof.
  unfold read_line. cbv zeta.
  repeat match goal with
         | |- context [if String.prefix ?p ?l then _ else _] =>
             let H := fresh "H" in
             destruct (String.prefix p l) eqn:H;
               [apply str_prefix_split in H as [rest ->]; eexists; reflexivity|]
         end.
  now eexists.
Qed.

Lemma read_line_modular (line : string) (b b' : build_settings) :
  read_line line b = Some b' ->
  use_modular_engine b'
  = if sets_modular line then setting_value line else use_modular_engine b.
Proof.
  unfold read_line, sets_modular, setting_value. cbv zeta.
  destruct (String.prefix "use_modular_engine=" (strip line)) eqn:Hm.
  - apply str_prefix_split in Hm as [rest ->]. now intros [= <-].
  - repeat match goal with
           | |- context [if String.prefix ?p ?l then _ else _] =>
               destruct (String.prefix p l)
           end;
      try destruct (after_eq (strip line)); intros [= <-]; reflexivity.
Qed.

Lemma read_lines_modular (lines : list string) (b : build_settings) :
  use_modular_engine (read_lines lines b)
  = match last (List.filter sets_modular lines) with
    | Some line => setting_value line
    | None => use_modular_engine b
    end.
Proof.
  revert b. induction lines as [|line rest IH]; intros b; [reflexivity|].
  destruct (read_line_returns line b) as [b' Hb'].
  cbn [read_lines List.filter]. rewrite Hb', IH.
  rewrite (read_line_modular line b b' Hb').
  destruct (sets_modular line); [|reflexivity].
  destruct (List.filter sets_modular rest) as [|x marked] eqn:Hmarked;
    [reflexivity|].
  change (last (line :: x :: marked)) with (last (x :: marked)).
  destruct (last (x :: marked)) eqn:Hlast; [reflexivity|].
  apply last_None in Hlast. discriminate Hlast.
Qed.

Lemma shader_step_reads_first (lines : list string) :
  shader_step_reads lines
  = match head (List.filter sets_modular lines) with
    | Some line => setting_value line
    | None => false
    end.
Proof.
  induction lines as [|line rest IH]; [reflexivity|].
  cbn [shader_step_reads List.filter]. unfold sets_modular at 1.
  destruct (String.prefix "use_modular_engine=" (strip line)); [reflexivity|].
  exact IH.
Qed.

(** X26.  Two readers of one setting: the shader step of a build takes
    [use_modular_engine] from the first line of the settings file that
    names it, the build itself from the last.  They read the same value
    when at most one line names the setting, and no line makes the
    loop of the build raise. *)
Theorem modular_engine_first_and_last (lines : list string) :
  let naming := List.filter sets_modular lines in
  shader_step_reads lines
  = match head naming with
    | Some line => setting_value line
    | None => false
    end
  /\ use_modular_engine (read_lines lines no_settings)
     = match last naming with
       | Some line => setting_value line
       | None => false
       end
  /\ (length naming <= 1 ->
      shader_step_reads lines = use_modular_engine (read_lines lines no_settings))
  /\ (forall line b, is_Some (read_line line b)).
Proof.
  cbv zeta. rewrite shader_step_reads_first, read_lines_modular.
  split; [reflexivity|]. split; [reflexivity|]. split.
  - destruct (List.filter sets_modular lines) as [|x [|y naming]];
      simpl; intros H; [reflexivity | reflexivity | lia].
  - intros line b. destruct (read_line_returns line b) as [b' ->]. now exists b'.
Qed.

End ConfigFacts.

(** ** Concrete runs *)

Section SwapMoreRuns.
Import Swap.

(** A note beside the DLLs is not touched while the swap waits for the
    lock and commits. *)
Lemma swap_touches_three_paths_only_witness :
  let fs := <["proj/notes.txt" := "todo"]> demo_files in
  let w := swap (locked_first 3) "proj/spin.dll" fs in
  files w !! "proj/notes.txt" = fs !! "proj/notes.txt"
  /\ Forall (step_leaves "proj/notes.txt" (fs !! "proj/notes.txt")) (trace w).
Proof.
  apply (swap_touches_three_paths_only (locked_first 3) "proj/spin.dll");
    intros H; vm_compute in H; discriminate H.
Defined.

(** The lock is held for fourteen calls and released then. *)
Lemma released_lock_commits_witness :
  let w := swap (locked_first 14) "proj/spin.dll" demo_files in
  demo_files !! "proj/spin.dll.new" = Some "v2"
  /\ replaced w = true
  /\ files w !! "proj/spin.dll" = Some "v2"
  /\ files w !! "proj/spin.dll.new" = None.
Proof.
  assert (Hfree : forall n, max_retries - 1 <= n -> locked_first 14 n = false).
  { intros n Hn. unfold locked_first. apply Nat.ltb_ge. exact Hn. }
  assert (Hstaged : demo_files !! dll_new_path "proj/spin.dll" = Some "v2")
    by (vm_compute; reflexivity).
  split; [exact Hstaged|].
  exact (released_lock_commits (locked_first 14) "proj/spin.dll" demo_files
           "v2" Hfree Hstaged).
Defined.

Lemma unobstructed_swap_commits_at_once_witness :
  let w := swap never_locked "proj/spin.dll" demo_files in
  replaced w = true
  /\ files w !! "proj/spin.dll" = Some "v2"
  /\ files w !! "proj/spin.dll.new" = None
  /\ files w !! "proj/spin.dll.old" = None
  /\ schedule (trace w) = [EvAttempt 0].
Proof.
  assert (Hstaged : demo_files !! dll_new_path "proj/spin.dll" = Some "v2")
    by (vm_compute; reflexivity).
  exact (unobstructed_swap_commits_at_once never_locked "proj/spin.dll"
           demo_files "v2" (fun n => eq_refl) Hstaged).
Defined.

(** The compiler left no new DLL: the loaded one is moved away and
    nothing takes its place. *)
Lemma swap_without_artifact_witness :
  let fs : gmap string string := {[ "proj/spin.dll" := "v1" ]} in
  let w := swap never_locked "proj/spin.dll" fs in
  fs !! "proj/spin.dll.new" = None
  /\ replaced w = false
  /\ files w !! "proj/spin.dll" = None
  /\ files w !! "proj/spin.dll.old" = Some "v1"
  /\ attempts (trace w) = [0].
Proof.
  cbv zeta.
  assert (Hstaged : ({[ "proj/spin.dll" := "v1" ]} : gmap string string)
                    !! dll_new_path "proj/spin.dll" = None)
    by (vm_compute; reflexivity).
  destruct (swap_without_artifact never_locked "proj/spin.dll"
              {[ "proj/spin.dll" := "v1" ]} Hstaged)
    as (Hrep & _ & _ & _ & Hfree).
  destruct Hfree as (Hl & Hb & Ha);
    [intros n; reflexivity | eexists; vm_compute; reflexivity |].
  split; [exact Hstaged|]. split; [exact Hrep|]. split; [exact Hl|].
  split; [exact (eq_trans Hb eq_refl) | exact Ha].
Defined.

End SwapMoreRuns.

Section BufferRuns.
Import Buffer.

(** The cursor between [wo] and [rld] on the second line. *)
Lemma edits_keep_cursor_in_text_witness :
  let b := {| lines := ["hello"; "world"]; cursor_x := 2; cursor_y := 1 |} in
  cursor_in_text b
  /\ exists b', _newline b = Ok b' /\ cursor_in_text b'.
Proof.
  cbv zeta.
  assert (H : cursor_in_text
                {| lines := ["hello"; "world"]; cursor_x := 2; cursor_y := 1 |}).
  { exists "world". simpl. unfold len. simpl. repeat split; lia. }
  split; [exact H|].
  destruct (edits_keep_cursor_in_text _ H) as (_ & _ & Hnewline & _).
  exact Hnewline.
Defined.

Lemma newline_is_undone_by_backspace_witness :
  let b := {| lines := ["hello"; "world"]; cursor_x := 2; cursor_y := 1 |} in
  _newline b
  = Ok {| lines := ["hello"; "wo"; "rld"]; cursor_x := 0; cursor_y := 2 |}
  /\ and_then (_newline b) _backspace = Ok b.
Proof.
  cbv zeta. split; [vm_compute; reflexivity|].
  apply newline_is_undone_by_backspace.
  exists "world". simpl. unfold len. simpl. repeat split; lia.
Defined.

Lemma typing_is_undone_by_backspaces_witness :
  let b := {| lines := ["hello"; "world"]; cursor_x := 2; cursor_y := 1 |} in
  _insert "nde" b
  = Ok {| lines := ["hello"; "wonderld"]; cursor_x := 5; cursor_y := 1 |}
  /\ and_then (_insert "nde" b) (backspaces 3) = Ok b.
Proof.
  cbv zeta. split; [vm_compute; reflexivity|].
  apply (typing_is_undone_by_backspaces "nde").
  exists "world". simpl. unfold len. simpl. repeat split; lia.
Defined.

Lemma typing_changes_the_text_at_the_cursor_witness :
  let b := {| lines := ["hello"; "world"]; cursor_x := 2; cursor_y := 1 |} in
  text_before b = "hello" +:+ Trigger.newline +:+ "wo"
  /\ text_after b = "rld"
  /\ saved_text (lines b) = text_before b +:+ text_after b.
Proof.
  cbv zeta. split; [vm_compute; reflexivity|]. split; [vm_compute; reflexivity|].
  apply typing_changes_the_text_at_the_cursor.
  exists "world". simpl. unfold len. simpl. repeat split; lia.
Defined.

(** Backspace at the start of the second line removes the line feed. *)
Lemma backspace_deletes_one_character_witness :
  let b := {| lines := ["hello"; "world"]; cursor_x := 0; cursor_y := 1 |} in
  _backspace b = Ok {| lines := ["helloworld"]; cursor_x := 5; cursor_y := 0 |}
  /\ exists b',
       _backspace b = Ok b'
       /\ text_after b' = text_after b
       /\ ((cursor_x b = 0%Z /\ cursor_y b = 0%Z /\ b' = b)
           \/ exists c, text_before b = text_before b' +:+ String c "").
Proof.
  cbv zeta. split; [vm_compute; reflexivity|].
  apply backspace_deletes_one_character.
  exists "world". simpl. unfold len. simpl. repeat split; lia.
Defined.

End BufferRuns.

Section FileRuns.
Import PyStr Buffer.

(** The project source is saved at time 100 and loaded back. *)
Lemma saved_file_loads_back_witness :
  let e := Trigger.demo_editor false in
  exists files' e' fired,
    Trigger.save id 100 true ∅ e = Some (files', e', fired)
    /\ _load_file files' "proj/game.hd" = ["@hot system spin {}"].
Proof.
  cbv zeta. eexists _, _, _.
  assert (Hsave : Trigger.save id 100 true ∅ (Trigger.demo_editor false)
                  = Some (<["proj/game.hd" := "@hot system spin {}"]> ∅,
                          Trigger.set_last_hotload_time 100
                            (Trigger.set_status
                               "Saved proj/game.hd - Auto hotloading..."
                               (Trigger.demo_editor false)),
                          true))
    by (vm_compute; reflexivity).
  split; [exact Hsave|].
  apply (saved_file_loads_back id 100 ∅ _ (Trigger.demo_editor false) _ _ Hsave).
  - repeat constructor.
  - simpl. intros [=].
Defined.

End FileRuns.
Section FileRuns2.
Import PyStr Buffer.

(** A shader that ends with an empty line is saved and loaded back:
    the empty line is gone. *)
Lemma empty_last_line_is_lost_witness :
  let e := {| Trigger.view_mode := "shader";
              Trigger.current_shader_path := Some "proj/sky.frag";
              Trigger.viewing_hd := false; Trigger.path := "proj/game.hd";
              Trigger.original_hd_path := "proj/game.hd";
              Trigger.lines := ["void main() {"; "}"; ""];
              Trigger.status := ""; Trigger.auto_hotload_enabled := true;
              Trigger.last_hotload_time := 0;
              Trigger._building := false; Trigger._just_built := false |} in
  exists files' e',
    Trigger.save id 100 true ∅ e = Some (files', e', false)
    /\ _load_file files' "proj/sky.frag" = ["void main() {"; "}"].
Proof.
  cbv zeta. eexists _, _.
  match goal with |- Trigger.save _ _ _ _ ?e = _ /\ _ =>
    assert (Hsave : Trigger.save id 100 true ∅ e
                    = Some (<["proj/sky.frag"
                              := Buffer.saved_text ["void main() {"; "}"; ""]]> ∅,
                            Trigger.set_status "Saved proj/sky.frag" e, false))
      by (vm_compute; reflexivity)
  end.
  split; [exact Hsave|].
  apply (empty_last_line_is_lost id 100 ∅ _ _ _ _ ["void main() {"; "}"] Hsave).
  - reflexivity.
  - repeat constructor.
Defined.

End FileRuns2.

Section TerminalRuns.
Import PyStr Terminal.

(** Three lines of output reach a full terminal; the second is empty
    once its line feed is taken off. *)
Lemma terminal_shows_latest_output_witness :
  let t' := show_output 18 ["ready" +:+ Trigger.newline; Trigger.newline;
                            "done" +:+ Trigger.newline] full_buffer in
  length (terminal_lines full_buffer) <= TERMINAL_MAX_LINES
  /\ terminal_lines t' = replicate 498 "x" ++ ["ready"; "done"]
  /\ length (terminal_lines t') <= 500.
Proof.
  cbv zeta.
  assert (H : length (terminal_lines full_buffer) <= TERMINAL_MAX_LINES)
    by (apply Nat.leb_le; vm_compute; reflexivity).
  split; [exact H|].
  destruct (terminal_shows_latest_output 18
              ["ready" +:+ Trigger.newline; Trigger.newline;
               "done" +:+ Trigger.newline] full_buffer H) as (Hlines & Hlen).
  split; [|exact Hlen].
  rewrite Hlines. vm_compute. reflexivity.
Defined.

End TerminalRuns.

Section TriggerMoreRuns.
Import Trigger.

(** Saving the project source at time 100 starts a hotload. *)
Lemma save_triggers_on_saved_text_witness :
  exists files' e',
    save id 100 true ∅ (demo_editor false) = Some (files', e', true)
    /\ contains "@hot" (Buffer.saved_text (lines (demo_editor false))) = true.
Proof.
  eexists _, _.
  assert (Hsave : save id 100 true ∅ (demo_editor false)
                  = Some (<["proj/game.hd" := "@hot system spin {}"]> ∅,
                          set_last_hotload_time 100
                            (set_status "Saved proj/game.hd - Auto hotloading..."
                               (demo_editor false)),
                          true))
    by (vm_compute; reflexivity).
  split; [exact Hsave|].
  destruct (save_triggers_on_saved_text id 100 true ∅ _ (demo_editor false) _ _ Hsave)
    as [Hfired _].
  destruct (Hfired eq_refl) as (_ & _ & _ & Hhot & _). exact Hhot.
Defined.

End TriggerMoreRuns.

Section RunStepRuns.
Import PyStr RunStep.

(** The compiler fails with two lines of diagnostics. *)
Lemma run_step_logs_single_lines_witness :
  let r := {| status := ""; log_lines := ["Build started"] |} in
  let o := Exited 1 (Some ("a.cpp:1: error" +:+ Trigger.newline))
             (Some ("1 error" +:+ Trigger.newline)) in
  log_lines (snd (_run_step "Compile" ["g++"; "a.cpp"] true o r))
  = ["Build started"; "a.cpp:1: error"; "1 error"]
  /\ exists added,
       log_lines (snd (_run_step "Compile" ["g++"; "a.cpp"] true o r))
       = log_lines r ++ added
       /\ Forall (fun l => one_line l = true) added.
Proof.
  cbv zeta. split; [vm_compute; reflexivity|].
  apply run_step_logs_single_lines; [reflexivity | repeat constructor].
Defined.

End RunStepRuns.
Section EditorRuns.
Import Editor.


End EditorRuns.

Section SyntaxRuns.
Import Syntax.

(** A declaration with a comment: [let] and [i32] stay uncoloured. *)
Lemma commented_line_is_not_colored_witness :
  _syntax_tokens "let x: i32 = 42; // the answer"
  = [("let x: i32 = 42; ", None); ("// the answer", Some COLOR_COMMENT)].
Proof.
  exact (commented_line_is_not_colored "let x: i32 = 42; " " the answer"
           eq_refl eq_refl).
Defined.

(** The same declaration without the comment. *)
Example uncommented_line_is_colored :
  _syntax_tokens "let x: i32 = 42;"
  = [("let", Some COLOR_KEYWORD); (" ", None); ("x", None); (": ", None);
     ("i32", Some COLOR_TYPE); (" = 42;", None)].
Proof. vm_compute. reflexivity. Qed.

End SyntaxRuns.

Section SwapLastRuns.
Import Swap.

(** A first build whose rename is refused to the end. *)
Lemma new_dll_is_never_lost_witness :
  let w := swap always_locked "proj/spin.dll" fresh_files in
  fresh_files !! "proj/spin.dll.new" = Some "v2"
  /\ replaced w = false
  /\ files w !! "proj/spin.dll.new" = Some "v2".
Proof.
  cbv zeta.
  assert (Hstaged : fresh_files !! dll_new_path "proj/spin.dll" = Some "v2")
    by (vm_compute; reflexivity).
  assert (Hrep : replaced (swap always_locked "proj/spin.dll" fresh_files) = false)
    by (vm_compute; reflexivity).
  pose proof (new_dll_is_never_lost always_locked "proj/spin.dll" fresh_files
                "v2" Hstaged) as H.
  cbv zeta in H. rewrite Hrep in H.
  split; [exact Hstaged|]. split; [exact Hrep | exact H].
Defined.

End SwapLastRuns.
